(** * opium-decorator-resolvers: the descriptor registry, the declare
    operations, the graph registrar and the injection session of
    [src/index.ts], embedded as state-passing functions.

    JavaScript objects that the source shares by reference (the
    [ResolverMeta] descriptors) live in a heap and are named by their address;
    the metadata store, the registry and the [deps] arrays hold addresses. *)

From stdpp Require Import base decidable option countable list gmap strings sets fin_maps.

Open Scope string_scope.

(** ** JavaScript values *)

(** The values the source passes around as identifiers, targets, member keys
    and resolved dependencies: [undefined], strings, symbols, and objects or
    functions (classes, prototypes, factories), the latter by identity. *)
Inductive value : Type :=
| VUndef
| VStr (s : string)
| VSym (n : nat)
| VRef (n : nat).

#[global] Instance value_eq_dec : EqDecision value.
Proof. solve_decision. Defined.

Definition value_enc (v : value) : unit + (string + (nat + nat)) :=
  match v with
  | VUndef => inl tt
  | VStr s => inr (inl s)
  | VSym n => inr (inr (inl n))
  | VRef n => inr (inr (inr n))
  end.

Definition value_dec (x : unit + (string + (nat + nat))) : value :=
  match x with
  | inl _ => VUndef
  | inr (inl s) => VStr s
  | inr (inr (inl n)) => VSym n
  | inr (inr (inr n)) => VRef n
  end.

#[global] Instance value_countable : Countable value.
Proof. by apply (inj_countable' value_enc value_dec); intros []. Defined.

(** JavaScript truthiness, as used by [id || target] and [!id]. *)
Definition truthy (v : value) : bool :=
  match v with
  | VUndef => false
  | VStr s => negb (String.eqb s EmptyString)
  | VSym _ | VRef _ => true
  end.

(** [a || b] on values. *)
Definition jsOr (a b : value) : value := if truthy a then a else b.

(** [IsObject] of reflect-metadata, and what a property read needs. *)
Definition isObject (v : value) : bool :=
  match v with VRef _ => true | _ => false end.

(** Template-literal rendering of a value inside an error message. *)
Definition render (v : value) : string :=
  match v with
  | VUndef => "undefined"
  | VStr s => s
  | VSym _ => "Symbol()"
  | VRef _ => "[object]"
  end.

(** ** Enumerations and the descriptor *)

Inductive ResolverType : Type :=
| TYPE
| FACTORY
| INSTANCE
| OtherKind (n : nat).   (* any run-time value outside the enum *)

Inductive TargeType : Type :=
| CONSTRUCTOR
| PROPERTY
| METHOD
| NoTarget.              (* [args.length] outside 1..3: no [case] matches *)

(** [LifeCycle] is re-exported from opium-ioc. *)
Inductive LifeCycle : Type :=
| SINGLETON
| PROTOTYPE.

#[global] Instance ResolverType_eq_dec : EqDecision ResolverType.
Proof. solve_decision. Defined.
#[global] Instance LifeCycle_eq_dec : EqDecision LifeCycle.
Proof. solve_decision. Defined.

Abbreviation addr := nat.

(** [class ResolverMeta]. [deps] is a JavaScript array of descriptors: an
    entry is a descriptor's address or a hole ([None]) left by an assignment
    past the end of the array. *)
Record ResolverMeta : Type := mkMeta {
  id : value;
  target : value;
  type : ResolverType;
  lifeCycle : LifeCycle;
  deps : list (option addr);
  metaKey : value
}.

(** [new ResolverMeta()]: the field initialisers of the class. *)
Definition newMeta : ResolverMeta :=
  {| id := VUndef; target := VUndef; type := TYPE; lifeCycle := SINGLETON;
     deps := []; metaKey := VUndef |}.

#[global] Instance ResolverMeta_inhabited : Inhabited ResolverMeta := populate newMeta.

Definition set_id (v : value) (m : ResolverMeta) : ResolverMeta :=
  {| id := v; target := target m; type := type m; lifeCycle := lifeCycle m;
     deps := deps m; metaKey := metaKey m |}.
Definition set_target (v : value) (m : ResolverMeta) : ResolverMeta :=
  {| id := id m; target := v; type := type m; lifeCycle := lifeCycle m;
     deps := deps m; metaKey := metaKey m |}.
Definition set_type (t : ResolverType) (m : ResolverMeta) : ResolverMeta :=
  {| id := id m; target := target m; type := t; lifeCycle := lifeCycle m;
     deps := deps m; metaKey := metaKey m |}.
Definition set_lifeCycle (l : LifeCycle) (m : ResolverMeta) : ResolverMeta :=
  {| id := id m; target := target m; type := type m; lifeCycle := l;
     deps := deps m; metaKey := metaKey m |}.
Definition set_deps (d : list (option addr)) (m : ResolverMeta) : ResolverMeta :=
  {| id := id m; target := target m; type := type m; lifeCycle := lifeCycle m;
     deps := d; metaKey := metaKey m |}.
Definition set_metaKey (k : value) (m : ResolverMeta) : ResolverMeta :=
  {| id := id m; target := target m; type := type m; lifeCycle := lifeCycle m;
     deps := deps m; metaKey := k |}.

(** ** JavaScript arrays with holes *)

(** [arr[i] = x]: replaces inside the array, extends it with holes past
    its end. *)
Definition array_set {A} (l : list (option A)) (i : nat) (x : A) : list (option A) :=
  if decide (i < length l) then <[i := Some x]> l
  else l ++ replicate (i - length l) None ++ [Some x].

(** [arr[i]], with [undefined] (a hole or out of range) as [None]. *)
Definition array_get {A} (l : list (option A)) (i : nat) : option A :=
  mjoin (l !! i).

(** [arr.push(x)]. *)
Definition array_push {A} (l : list (option A)) (x : A) : list (option A) :=
  l ++ [Some x].

(** ** [isSimpleType] *)

Definition simpleTypeNames : list string :=
  ["String"; "Number"; "Boolean"; "Object"; "undefined"; "Array"; "Function"].

(** [[...].indexOf(name) > -1]; [indexOf] compares with [===], so only a
    string can be found. *)
Definition isSimpleType (name : value) : bool :=
  match name with
  | VStr s => bool_decide (s ∈ simpleTypeNames)
  | _ => false
  end.

(** ** Exceptions and completions *)

Inductive exn : Type :=
| TypeError (what : string)
| Error (msg : string).

(** The error [registerParam] throws (the spec's [MissingIdentifierError]). *)
Definition MissingIdentifierError (name : value) : exn :=
  Error ("type " ++ render name ++ " requires a custom identifier, " ++
         "consider annotating with @register('my-id')").

Definition renderKind (t : ResolverType) : string :=
  match t with
  | TYPE => "0" | FACTORY => "1" | INSTANCE => "2" | OtherKind _ => "?"
  end.

(** The error of the [default] arm of [registerWithContainer]. *)
Definition UnknownKindError (t : ResolverType) : exn :=
  Error ("Unknown dependency type " ++ renderKind t ++ "!").

Inductive Completion (A : Type) : Type :=
| Normal (a : A)
| Throw (e : exn).
Arguments Normal {A} a.
Arguments Throw {A} e.

(** ** The external container (opium-ioc), at its interface *)

(** What a registered factory runs when the container resolves it. *)
Inductive Producer : Type :=
| PTarget (fn : value)
    (* [dep.target], a declared factory function *)
| PConstruct (dep : addr) (depMeta : option addr).
    (* the async closure of the [TYPE] arm, with the [dep] and [depMeta]
       it captured *)

Inductive Registered : Type :=
| RFactory (p : Producer)
| RInstance (v : value).

(** [Dependency], the handle [getDep] returns. *)
Record Dependency : Type := mkDep {
  dep_name : value;
  dep_what : Registered;
  dep_ids : list (option value);   (* [dep.deps.map(a => a.id)], holes kept *)
  dep_lifeCycle : LifeCycle
}.

(** Modelled from the spec: the container of opium-ioc is an external
    package; section 6 gives its interface: [registerFactory], [registerInstance]
    and [getDep], which answers [undefined] for an identifier that has no
    registration. *)
Record Opium : Type := mkOpium {
  opium_name : option string;
  opium_lifeCycle : option LifeCycle;
  opium_registry : gmap value Dependency
}.

Definition newOpium (name : option string) (lc : option LifeCycle) : Opium :=
  {| opium_name := name; opium_lifeCycle := lc; opium_registry := ∅ |}.

Definition getDep (c : Opium) (i : value) : option Dependency :=
  opium_registry c !! i.

Definition registerFactory (c : Opium) (i : value) (p : Producer)
    (ids : list (option value)) (lc : LifeCycle) : Opium :=
  {| opium_name := opium_name c; opium_lifeCycle := opium_lifeCycle c;
     opium_registry := <[i := mkDep i (RFactory p) ids lc]> (opium_registry c) |}.

Definition registerInstance (c : Opium) (i : value) (v : value)
    (ids : list (option value)) (lc : LifeCycle) : Opium :=
  {| opium_name := opium_name c; opium_lifeCycle := opium_lifeCycle c;
     opium_registry := <[i := mkDep i (RInstance v) ids lc]> (opium_registry c) |}.

(** ** The host environment *)

(** What the declare operations read from the reflection facility and from
    the annotated objects themselves. It does not change while the program
    runs. *)
Record Env : Type := mkEnv {
  paramtypes : value -> value -> option (list value);
    (* Reflect.getMetadata('design:paramtypes', target, key) *)
  returntype : value -> value -> value;
    (* Reflect.getMetadata('design:returntype', target, key) *)
  nameOf : value -> value;          (* [p.name], for [p] an object *)
  getProp : value -> value -> value;   (* [target[key]] *)
  prototypeOf : value -> value;     (* [target.prototype] *)
  lifeCycleTruthy : LifeCycle -> bool
    (* whether the enum member of opium-ioc is a truthy number *)
}.

(** ** Program state *)

Record State : Type := mkState {
  heap : list ResolverMeta;                 (* the descriptors, by address *)
  metadata : gmap (value * value) addr;     (* OPIUM_META, by (target, key) *)
  registry : gmap value addr;               (* [const registry] *)
  container : option Opium;                 (* [let container] *)
  debugLog : list exn                       (* what [debug] was called with *)
}.

Definition initState : State :=
  {| heap := []; metadata := ∅; registry := ∅; container := None; debugLog := [] |}.

Definition with_heap (h : list ResolverMeta) (s : State) : State :=
  {| heap := h; metadata := metadata s; registry := registry s;
     container := container s; debugLog := debugLog s |}.
Definition with_metadata (m : gmap (value * value) addr) (s : State) : State :=
  {| heap := heap s; metadata := m; registry := registry s;
     container := container s; debugLog := debugLog s |}.
Definition with_registry (r : gmap value addr) (s : State) : State :=
  {| heap := heap s; metadata := metadata s; registry := r;
     container := container s; debugLog := debugLog s |}.
Definition with_container (c : option Opium) (s : State) : State :=
  {| heap := heap s; metadata := metadata s; registry := registry s;
     container := c; debugLog := debugLog s |}.
Definition with_debugLog (l : list exn) (s : State) : State :=
  {| heap := heap s; metadata := metadata s; registry := registry s;
     container := container s; debugLog := l |}.

(** ** A state-and-exception monad for the declare operations *)

Definition M (A : Type) : Type := State -> State * Completion A.

Definition ret {A} (a : A) : M A := fun s => (s, Normal a).
Definition throw {A} (e : exn) : M A := fun s => (s, Throw e).
Definition bind {A B} (m : M A) (k : A -> M B) : M B :=
  fun s => match m s with
           | (s', Normal a) => k a s'
           | (s', Throw e) => (s', Throw e)
           end.

Declare Scope js_scope.
Delimit Scope js_scope with js.
Notation "x <- m ;; k" := (bind m (fun x => k))
  (at level 100, m at next level, right associativity) : js_scope.
Notation "m ;; k" := (bind m (fun _ => k))
  (at level 100, right associativity) : js_scope.
Open Scope js_scope.

(** [new ResolverMeta()] *)
Definition alloc : M addr :=
  fun s => (with_heap (heap s ++ [newMeta]) s, Normal (length (heap s))).

(** A field read of the descriptor at [a]. *)
Definition readMeta (a : addr) : M ResolverMeta :=
  fun s => (s, Normal (heap s !!! a)).

(** A field assignment on the descriptor at [a]. *)
Definition modify (a : addr) (f : ResolverMeta -> ResolverMeta) : M unit :=
  fun s => (with_heap (alter f a (heap s)) s, Normal tt).

(** [Reflect.getMetadata(OPIUM_META, target, key)]; reflect-metadata throws a
    [TypeError] when [target] is not an object. Targets are taken not to
    inherit from one another. *)
Definition getMetadata (tgt key : value) : M (option addr) :=
  fun s => if isObject tgt then (s, Normal (metadata s !! (tgt, key)))
           else (s, Throw (TypeError "Reflect.getMetadata: target is not an object")).

(** [Reflect.defineMetadata(OPIUM_META, meta, target, key)] *)
Definition defineMetadata (a : addr) (tgt key : value) : M unit :=
  fun s => if isObject tgt then (with_metadata (<[(tgt, key) := a]> (metadata s)) s, Normal tt)
           else (s, Throw (TypeError "Reflect.defineMetadata: target is not an object")).

(** [registry.set(k, meta)] *)
Definition registrySet (k : value) (a : addr) : M unit :=
  fun s => (with_registry (<[k := a]> (registry s)) s, Normal tt).

(** [p.name]: a property read, which throws on [undefined]. *)
Definition getName (env : Env) (p : value) : M value :=
  match p with
  | VUndef => throw (TypeError "Cannot read property 'name' of undefined")
  | VStr _ | VSym _ => ret VUndef
  | VRef _ => ret (nameOf env p)
  end.

(** ** The descriptor builder: [registerParam], [registerDeps], [register] *)

(** [registerParam(param, index, targetMeta, lifeCycle?, id?)]. The source
    never reads [lifeCycle]. *)
Definition registerParam (env : Env) (param : value) (index : nat)
    (targetMeta : addr) (lc : option LifeCycle) (i : value) : M unit :=
  name <- getName env param ;;
  if isSimpleType name && negb (truthy i)
  then throw (MissingIdentifierError name)
  else
    depMeta <- alloc ;;
    modify depMeta (set_id (jsOr i param)) ;;
    modify targetMeta (fun m => set_deps (array_set (deps m) index depMeta) m).

(** The [forEach] of [registerDeps], from index [i] on. *)
Fixpoint forEachParam (env : Env) (targetMeta : addr) (ps : list value) (i : nat) : M unit :=
  match ps with
  | [] => ret tt
  | d :: rest =>
      m <- readMeta targetMeta ;;
      match array_get (deps m) i with
      | None => registerParam env d i targetMeta None VUndef
      | Some _ => ret tt
      end ;;
      forEachParam env targetMeta rest (S i)
  end.

(** [Reflect.getMetadata('design:paramtypes', target, key) || []] *)
Definition paramtypesOrEmpty (env : Env) (tgt key : value) : list value :=
  default [] (paramtypes env tgt key).

(** [registerDeps(targetMeta, target, key)] *)
Definition registerDeps (env : Env) (targetMeta : addr) (tgt key : value) : M unit :=
  forEachParam env targetMeta (paramtypesOrEmpty env tgt key) 0.

(** The third argument a decorator receives. *)
Inductive Descriptor : Type :=
| DUndef
| DNum (n : nat)                          (* a parameter index *)
| DObj (dvalue : value) (accessor : bool).
    (* a property descriptor: its [value], and whether it has [get] or [set] *)

(** The arguments [...args] of the function [register] returns. *)
Inductive Args : Type :=
| Args0
| Args1 (tgt : value)
| Args2 (tgt key : value)
| Args3 (tgt key : value) (descriptor : Descriptor).

(** [const [target, key, descriptor] = args] *)
Definition argTarget (a : Args) : value :=
  match a with
  | Args0 => VUndef
  | Args1 t | Args2 t _ | Args3 t _ _ => t
  end.
Definition argKey (a : Args) : value :=
  match a with
  | Args0 | Args1 _ => VUndef
  | Args2 _ k | Args3 _ k _ => k
  end.
Definition argDescriptor (a : Args) : Descriptor :=
  match a with
  | Args3 _ _ d => d
  | _ => DUndef
  end.

(** [args.length] after the two conditional [args.pop()]. *)
Definition argsLength (a : Args) : nat :=
  match a with
  | Args0 => 0
  | Args1 _ => 1
  | Args2 _ k => if decide (k = VUndef) then 1 else 2
  | Args3 _ k d =>
      match d with
      | DUndef => if decide (k = VUndef) then 1 else 2
      | _ => 3
      end
  end.

(** [descriptor && (descriptor.get || descriptor.set)] *)
Definition isAccessor (d : Descriptor) : bool :=
  match d with
  | DObj _ acc => acc
  | _ => false
  end.

Definition targetTypeOf (a : Args) : TargeType :=
  if isAccessor (argDescriptor a) then PROPERTY
  else match argsLength a with
       | 1 => CONSTRUCTOR
       | 2 => PROPERTY
       | 3 => METHOD
       | _ => NoTarget
       end.

(** [lifeCycle || targetMeta.lifeCycle] *)
Definition lcOr (env : Env) (lc : option LifeCycle) (old : LifeCycle) : LifeCycle :=
  match lc with
  | Some l => if lifeCycleTruthy env l then l else old
  | None => old
  end.

(** The common opening of the three arms: fetch the descriptor stored for the
    declaration site, or create and store one. *)
Definition fetchOrCreate (tgt key : value) : M addr :=
  found <- getMetadata tgt key ;;
  match found with
  | Some a => ret a
  | None =>
      a <- alloc ;;
      modify a (set_target tgt) ;;
      defineMetadata a tgt key ;;
      ret a
  end.

(** [case TargeType.CONSTRUCTOR] *)
Definition registerConstructor (env : Env) (i : value) (lc : option LifeCycle)
    (tgt key : value) : M (option addr) :=
  a <- fetchOrCreate tgt key ;;
  modify a (set_type TYPE) ;;
  modify a (fun m => set_lifeCycle (lcOr env lc (lifeCycle m)) m) ;;
  modify a (set_target tgt) ;;
  modify a (set_id (jsOr i tgt)) ;;
  registerDeps env a tgt key ;;
  ret (Some a).

(** [case TargeType.PROPERTY] *)
Definition registerProperty (env : Env) (i : value) (tgt key : value) : M (option addr) :=
  a <- fetchOrCreate tgt VUndef ;;
  depMeta <- alloc ;;
  modify depMeta (set_id i) ;;
  modify depMeta (set_metaKey key) ;;
  modify a (fun m => set_deps (array_push (deps m) depMeta) m) ;;
  (if decide (getProp env tgt key = VUndef) then ret tt
   else
     modify depMeta (set_type INSTANCE) ;;
     modify depMeta (set_target (getProp env tgt key)) ;;
     registrySet i depMeta) ;;
  ret (Some a).

(** [case TargeType.METHOD]; [None] is the early [return] of the parameter
    branch, which skips the final [registry.set]. *)
Definition registerMethod (env : Env) (i : value) (lc : option LifeCycle)
    (tgt key : value) (d : Descriptor) : M (option addr) :=
  a <- fetchOrCreate tgt key ;;
  match d with
  | DNum n =>
      registerParam env (default VUndef (paramtypesOrEmpty env tgt key !! n)) n a lc i ;;
      ret None
  | DUndef => throw (TypeError "Cannot read property 'value' of undefined")
  | DObj v _ =>
      modify a (set_type FACTORY) ;;
      modify a (set_target v) ;;
      modify a (fun m => set_lifeCycle (lcOr env lc (lifeCycle m)) m) ;;
      modify a (set_id (jsOr i (returntype env tgt key))) ;;
      registerDeps env a tgt key ;;
      ret (Some a)
  end.

(** [register(id, lifeCycle)(...args)] *)
Definition register (env : Env) (i : value) (lc : option LifeCycle) (args : Args) : M unit :=
  let tgt := argTarget args in
  let key := argKey args in
  targetMeta <-
    match targetTypeOf args with
    | CONSTRUCTOR => registerConstructor env i lc tgt key
    | PROPERTY => registerProperty env i tgt key
    | METHOD => registerMethod env i lc tgt key (argDescriptor args)
    | NoTarget => ret None
    end ;;
  match targetMeta with
  | Some a =>
      m <- readMeta a ;;
      registrySet (jsOr (id m) tgt) a
  | None => ret tt
  end.

Open Scope list_scope.

(** ** The graph registrar: [registerWithContainer] *)

Inductive Status : Type :=
| Done
| Threw (e : exn)
| OutOfFuel.

(** What one traversal leaves behind: how it ended, the container (the
    registrar mutates it in place) and the identifiers it passed to
    [registerFactory] or [registerInstance], in call order. *)
Record RegResult : Type := mkRegResult {
  rr_status : Status;
  rr_container : option Opium;
  rr_log : list value
}.

(** [dep.deps.map(a => a.id)]: [map] does not visit holes and leaves them in
    the result. *)
Definition depIds (h : list ResolverMeta) (ds : list (option addr)) : list (option value) :=
  (fun o : option addr => (fun a => id (h !!! a)) <$> o) <$> ds.

(** [v.prototype]: [None] stands for the [TypeError] of reading a property of
    [undefined]. *)
Definition getPrototype (env : Env) (v : value) : option value :=
  match v with
  | VUndef => None
  | VStr _ | VSym _ => Some VUndef
  | VRef _ => Some (prototypeOf env v)
  end.

(** [stack.push(...xs)] on a stack whose top is the head of the list. *)
Definition pushAll {A} (xs stack : list A) : list A := rev xs ++ stack.

(** The [while (stack.length)] loop. [c] is the [container] argument, [None]
    when the caller passed [null]. *)
Fixpoint registerLoop (env : Env) (h : list ResolverMeta) (reg : gmap value addr)
    (fuel : nat) (stack : list (option addr)) (c : option Opium) (log : list value)
    : RegResult :=
  match fuel with
  | 0 => mkRegResult OutOfFuel c log
  | S fuel' =>
      match stack with
      | [] => mkRegResult Done c log
      | None :: rest => registerLoop env h reg fuel' rest c log   (* if (!depRef) continue *)
      | Some r :: rest =>
          match reg !! id (h !!! r) with
          | None => registerLoop env h reg fuel' rest c log       (* if (!dep) continue *)
          | Some d =>
              let dep := h !!! d in
              match c with
              | None => mkRegResult (Threw (TypeError "Cannot read property 'getDep' of null")) c log
              | Some k =>
                  match getDep k (id dep) with
                  | Some _ => registerLoop env h reg fuel' rest c log   (* already registered *)
                  | None =>
                      let stack1 := pushAll (deps dep) rest in
                      let ids := depIds h (deps dep) in
                      match type dep with
                      | FACTORY =>
                          registerLoop env h reg fuel' stack1
                            (Some (registerFactory k (id dep) (PTarget (target dep)) ids (lifeCycle dep)))
                            (log ++ [id dep])
                      | TYPE =>
                          match getPrototype env (target dep) with
                          | None =>
                              mkRegResult
                                (Threw (TypeError "Cannot read property 'prototype' of undefined")) c log
                          | Some proto =>
                              let depMeta := reg !! proto in
                              let stack2 :=
                                match depMeta with
                                | Some pm => pushAll (deps (h !!! pm)) stack1
                                | None => stack1
                                end in
                              registerLoop env h reg fuel' stack2
                                (Some (registerFactory k (id dep) (PConstruct d depMeta) ids (lifeCycle dep)))
                                (log ++ [id dep])
                          end
                      | INSTANCE =>
                          registerLoop env h reg fuel' stack1
                            (Some (registerInstance k (id dep) (target dep) ids (lifeCycle dep)))
                            (log ++ [id dep])
                      | OtherKind n =>
                          mkRegResult (Threw (UnknownKindError (OtherKind n))) c log
                      end
                  end
              end
          end
      end
  end.

(** The longest [deps] array in the heap. *)
Definition maxDeps (h : list ResolverMeta) : nat :=
  foldr (fun m n => max (length (deps m)) n) 0 h.

(** Every identifier a descriptor of the heap carries. *)
Definition allIds (h : list ResolverMeta) : gset value :=
  {[ VUndef ]} ∪ list_to_set (id <$> h).

(** How many identifiers the container does not have yet. *)
Definition pending (h : list ResolverMeta) (c : option Opium) : nat :=
  match c with
  | Some k => size (allIds h ∖ dom (opium_registry k))
  | None => 0
  end.

(** Iterations that are enough for the loop: each one pops the stack, and one
    that registers an identifier pushes at most two [deps] arrays. *)
Definition fuelFor (h : list ResolverMeta) (stack : list (option addr)) (c : option Opium) : nat :=
  S (length stack + (2 * maxDeps h + 2) * pending h c).

(** [registerWithContainer(rootDep, container)] *)
Definition registerWithContainer (env : Env) (s : State) (rootDep : option addr)
    (c : option Opium) : RegResult :=
  registerLoop env (heap s) (registry s) (fuelFor (heap s) [rootDep] c) [rootDep] c [].

(** ** The injection session *)

(** [injectableFactory(name, lifeCycle)]: the function it returns is
    [getInjectable]. *)
Definition injectableFactory (name : option string) (lc : option LifeCycle) : M unit :=
  fun s => (with_container (Some (newOpium name lc)) s, Normal tt).

(** Not a JavaScript exception: the completion of a traversal that ran out of
    fuel. [registerWithContainer_total] shows that none does. *)
Definition fuelExhausted : exn := Error "registerWithContainer: out of fuel".

(** [getInjectable(target, key)] *)
Definition getInjectable (env : Env) (tgt key : value) : M (option Dependency) :=
  depMeta <- getMetadata tgt key ;;
  fun s =>
    let r := registerWithContainer env s depMeta (container s) in
    let s1 := with_container (rr_container r) s in
    match rr_status r with
    | Threw e => (s1, Throw e)
    | OutOfFuel => (s1, Throw fuelExhausted)
    | Done =>
        match rr_container r with
        | None => (s1, Throw (TypeError "Cannot read property 'getDep' of null"))
        | Some k =>
            match depMeta with
            | None => (s1, Throw (TypeError "Cannot read property 'id' of undefined"))
            | Some a =>
                let injectable := getDep k (id (heap s1 !!! a)) in
                (with_container None s1, Normal injectable)
            end
        end
    end.

(** The callback [inject] hands to [nextTick]; its completion is the
    settlement of the promise the async function returns. [resolve] is the
    outcome of [injectable.inject()], which the container decides. *)
Definition deferredTask (resolve : Dependency -> Completion value)
    (injectable : option Dependency) : M unit :=
  fun s =>
    match injectable with
    | None =>
        let e := TypeError "Cannot read property 'inject' of undefined" in
        (with_debugLog (debugLog s ++ [e]) s, Throw e)
    | Some d =>
        match resolve d with
        | Normal _ => (with_container None s, Normal tt)
        | Throw e => (with_debugLog (debugLog s ++ [e]) s, Throw e)
        end
    end.

(** [nextTick(task)]: the task runs on a later turn and nothing reads what it
    returns. *)
Definition nextTick (task : M unit) (s : State) : State := fst (task s).


Definition injectSync (env : Env) (i : value) (args : Args) : M (option Dependency) :=
  register env i None args ;;
  getInjectable env (argTarget args) (argKey args).

(** A call of [factory(...args)] followed by the next tick: the completion
    the declaring call site sees, and the state once the deferred task has
    run. *)
Definition injectRun (env : Env) (resolve : Dependency -> Completion value)
    (i : value) (args : Args) (s : State) : Completion unit * State :=
  match injectSync env i args s with
  | (s1, Throw e) => (Throw e, s1)
  | (s1, Normal injectable) => (Normal tt, nextTick (deferredTask resolve injectable) s1)
  end.

(** ** The producer registered for a [TYPE] descriptor *)

(** The object under construction: its members. *)
Definition Obj : Type := gmap value value.

(** What the producer does not decide itself: the constructor call and the
    container's resolution of a handle ([injectDeps()] then [injected]). *)
Record Runtime : Type := mkRuntime {
  construct : value -> list value -> Completion Obj;
  resolveDep : Dependency -> Completion value
}.

Inductive Event : Type :=
| EAssign (key v : value)     (* res[d.metaKey] = injectDep *)
| EReject (e : exn)           (* Promise.all rejected *)
| EReturn.                    (* return res *)

(** The body of the [async (d) => ...] callback up to the assignment. *)
Definition propCallback (rt : Runtime) (c : Opium) (d : ResolverMeta) : Completion value :=
  match getDep c (id d) with
  | None => Throw (TypeError "Cannot read property 'injectDeps' of undefined")
  | Some handle => resolveDep rt handle
  end.

(** [await Promise.all(depMeta.deps.map(...))]. The callbacks are all
    started at once; [order] is the order in which they settle. A fulfilled
    one assigns its member; the first rejected one rejects [Promise.all], and
    with it the producer. *)
Fixpoint settle (rt : Runtime) (h : list ResolverMeta) (c : Opium)
    (props : list (option addr)) (order : list nat) (res : Obj) (trace : list Event)
    : list Event * Completion Obj :=
  match order with
  | [] => (trace ++ [EReturn], Normal res)
  | i :: rest =>
      match props !! i with
      | Some (Some a) =>
          let d := h !!! a in
          match propCallback rt c d with
          | Normal v => settle rt h c props rest (<[metaKey d := v]> res) (trace ++ [EAssign (metaKey d) v])
          | Throw e => (trace ++ [EReject e], Throw e)
          end
      | _ => settle rt h c props rest res trace
      end
  end.

(** The async closure the [TYPE] arm registers, called with [args]. *)
Definition typeProducer (rt : Runtime) (h : list ResolverMeta) (c : Opium)
    (dep : addr) (depMeta : option addr) (args : list value) (order : list nat)
    : list Event * Completion Obj :=
  match construct rt (target (h !!! dep)) args with
  | Throw e => ([EReject e], Throw e)
  | Normal res =>
      match depMeta with
      | None => ([EReturn], Normal res)
      | Some pm => settle rt h c (deps (h !!! pm)) order res []
      end
  end.

(** The members a trace assigned, applied in order. *)
Definition applyTrace (trace : list Event) (res : Obj) : Obj :=
  foldl (fun o ev => match ev with EAssign k v => <[k := v]> o | _ => o end) res trace.

(** * Vocabulary of the statements *)

(** A relation between the state before and the state after that every step
    of a computation keeps. *)
Definition stable (R : State -> State -> Prop) {A} (m : M A) : Prop :=
  forall s, R s (m s).1.

(** Every descriptor that exists before still exists after, with the same
    lifecycle. *)
Definition keepsLifeCycle (s s' : State) : Prop :=
  forall a m, heap s !! a = Some m ->
    exists m', heap s' !! a = Some m' /\ lifeCycle m' = lifeCycle m.

(** What [registerParam] does to the state when it does not throw. *)
Definition withChild (i param : value) (n : nat) (a : addr) (s : State) : State :=
  with_heap
    (alter (fun m => set_deps (array_set (deps m) n (length (heap s))) m) a
       (alter (set_id (jsOr i param)) (length (heap s)) (heap s ++ [newMeta])))
    s.

(** [param.name] as [isSimpleType] receives it, for a [param] that is not
    [undefined]. *)
Definition reflectedName (env : Env) (p : value) : value :=
  match p with
  | VRef _ => nameOf env p
  | _ => VUndef
  end.

(** Whether [registerParam(param, index, targetMeta, lifeCycle, id)] gets
    past its guard, and what it throws when it does not. *)
Definition paramAccepted (env : Env) (p i : value) : bool :=
  match p with
  | VUndef => false
  | _ => negb (isSimpleType (reflectedName env p) && negb (truthy i))
  end.

Definition paramError (env : Env) (p : value) : exn :=
  match p with
  | VUndef => TypeError "Cannot read property 'name' of undefined"
  | _ => MissingIdentifierError (reflectedName env p)
  end.

(** Only the [deps] of the descriptor at [a] change, and only by gaining
    entries; new descriptors may be allocated; nothing else moves. *)
Definition depsGrow (a : addr) (s s' : State) : Prop :=
  metadata s' = metadata s /\ registry s' = registry s /\
  container s' = container s /\ debugLog s' = debugLog s /\
  length (heap s) <= length (heap s') /\
  (forall b, b < length (heap s) -> b <> a -> heap s' !! b = heap s !! b) /\
  (a < length (heap s) ->
     exists ds, heap s' !!! a = set_deps ds (heap s !!! a) /\
       forall n, is_Some (array_get (deps (heap s !!! a)) n) -> is_Some (array_get ds n)).

(** The state [fetchOrCreate] leaves when the site had no descriptor. *)
Definition created (tgt key : value) (s : State) : State :=
  with_metadata (<[(tgt, key) := length (heap s)]> (metadata s))
    (with_heap (alter (set_target tgt) (length (heap s)) (heap s ++ [newMeta])) s).

(** The field assignments of the [CONSTRUCTOR] arm, and of the factory branch
    of the [METHOD] arm, as one update. *)
Definition ctorUpdate (env : Env) (i : value) (lc : option LifeCycle) (tgt : value)
    (m : ResolverMeta) : ResolverMeta :=
  {| id := jsOr i tgt; target := tgt; type := TYPE;
     lifeCycle := lcOr env lc (lifeCycle m); deps := deps m; metaKey := metaKey m |}.

Definition factoryUpdate (env : Env) (i : value) (lc : option LifeCycle) (tgt key v : value)
    (m : ResolverMeta) : ResolverMeta :=
  {| id := jsOr i (returntype env tgt key); target := v; type := FACTORY;
     lifeCycle := lcOr env lc (lifeCycle m); deps := deps m; metaKey := metaKey m |}.

Definition rootInit (f : ResolverMeta -> ResolverMeta) (a : addr) (s : State) : State :=
  with_heap (alter f a (heap s)) s.

(** A root arm after its field assignments: [registerDeps], then the
    descriptor is handed to the final [registry.set]. *)
Definition finishRoot (env : Env) (a : addr) (tgt key : value) (s : State)
    : State * Completion (option addr) :=
  match registerDeps env a tgt key s with
  | (s3, Normal _) => (s3, Normal (Some a))
  | (s3, Throw e) => (s3, Throw e)
  end.

(** The state the [PROPERTY] arm leaves, the site's descriptor being [a]. *)
Definition withProperty (env : Env) (i tgt key : value) (a : addr) (s : State) : State :=
  let d := length (heap s) in
  let h1 := alter (fun m => set_deps (array_push (deps m) d) m) a
              (alter (set_metaKey key ∘ set_id i) d (heap s ++ [newMeta])) in
  if decide (getProp env tgt key = VUndef) then with_heap h1 s
  else with_registry (<[i := d]> (registry s))
         (with_heap (alter (set_target (getProp env tgt key) ∘ set_type INSTANCE) d h1) s).

(** The key of the final [registry.set(targetMeta.id || target, targetMeta)]. *)
Definition registryKey (s : State) (a : addr) (tgt : value) : value :=
  jsOr (id (heap s !!! a)) tgt.

Definition finalSet (tgt : value) (r : State * Completion (option addr))
    : State * Completion unit :=
  match r with
  | (s, Normal (Some a)) => (with_registry (<[registryKey s a tgt := a]> (registry s)) s, Normal tt)
  | (s, Normal None) => (s, Normal tt)
  | (s, Throw e) => (s, Throw e)
  end.

(** The key under which a declaration reads and stores its descriptor in the
    metadata: the [PROPERTY] arm drops the member key. *)
Definition site (args : Args) : value * value :=
  (argTarget args,
   match targetTypeOf args with
   | PROPERTY => VUndef
   | _ => argKey args
   end).

(** A declaration of a class or of a factory: the [CONSTRUCTOR] arm, or the
    [METHOD] arm on a property descriptor. *)
Definition isRoot (args : Args) : bool :=
  match targetTypeOf args with
  | CONSTRUCTOR => true
  | METHOD => match argDescriptor args with DObj _ _ => true | _ => false end
  | _ => false
  end.

Definition rootUpdate (env : Env) (i : value) (lc : option LifeCycle) (args : Args)
    : ResolverMeta -> ResolverMeta :=
  match targetTypeOf args, argDescriptor args with
  | METHOD, DObj v _ => factoryUpdate env i lc (argTarget args) (argKey args) v
  | _, _ => ctorUpdate env i lc (argTarget args)
  end.

(** The child a declaration finds at position [n] of its site's descriptor
    before it runs. *)
Definition declaredAt (s : State) (tgt key : value) (n : nat) : option addr :=
  match metadata s !! (tgt, key) with
  | Some a => array_get (deps (heap s !!! a)) n
  | None => None
  end.

(** The metadata store and the registry only hold addresses of
    descriptors. *)
Definition live (s : State) : Prop :=
  (forall k a, metadata s !! k = Some a -> a < length (heap s)) /\
  (forall k a, registry s !! k = Some a -> a < length (heap s)).

(** The states a program reaches: by declarations, and by steps that leave
    the descriptors, the metadata and the registry alone (sessions, lookups,
    the deferred task). *)
Inductive Declared (env : Env) : State -> Prop :=
| Declared_init : Declared env initState
| Declared_step s i lc args :
    Declared env s -> Declared env (register env i lc args s).1
| Declared_session s s' :
    Declared env s ->
    heap s' = heap s -> metadata s' = metadata s -> registry s' = registry s ->
    Declared env s'.

(** The declarations that end in [registry.set(targetMeta.id || target,
    targetMeta)]: all but the parameter branch, which returns early. *)
Definition storesDescriptor (args : Args) : bool :=
  match targetTypeOf args with
  | CONSTRUCTOR | PROPERTY => true
  | METHOD => match argDescriptor args with DObj _ _ => true | _ => false end
  | NoTarget => false
  end.

(** What one traversal did to a container [k]: the identifiers [new] it
    registered are distinct, none of them was registered in [k], and what was
    registered in [k] is registered unchanged in the container it leaves. *)
Definition onceOnly (k : Opium) (log : list value) (r : RegResult) : Prop :=
  exists k' new,
    rr_container r = Some k' /\ rr_log r = log ++ new /\ NoDup new /\
    (forall x, x ∈ new -> getDep k x = None) /\
    (forall x d, getDep k x = Some d -> getDep k' x = Some d) /\
    (forall x, x ∈ new -> is_Some (getDep k' x)).

Definition isAssign (ev : Event) : Prop :=
  match ev with EAssign _ _ => True | _ => False end.

(** ** Sites, registrations and members *)

(** The [deps] array of the descriptor stored for a site, empty when the
    site has none yet. *)
Definition siteDeps (s : State) (tgt key : value) : list (option addr) :=
  match metadata s !! (tgt, key) with
  | Some a => deps (heap s !!! a)
  | None => []
  end.

(** The lifecycle of the descriptor stored for a site, the default of a new
    descriptor when the site has none yet. *)
Definition siteLifeCycle (s : State) (tgt key : value) : LifeCycle :=
  match metadata s !! (tgt, key) with
  | Some a => lifeCycle (heap s !!! a)
  | None => SINGLETON
  end.

(** What the graph registrar stores in the container for the descriptor at
    [d], by its kind; nothing for a kind it does not know, or for a [TYPE]
    whose target has no [prototype] to read. *)
Definition registration (env : Env) (h : list ResolverMeta) (reg : gmap value addr)
    (d : addr) : option Dependency :=
  let dep := h !!! d in
  let ids := depIds h (deps dep) in
  match type dep with
  | FACTORY => Some (mkDep (id dep) (RFactory (PTarget (target dep))) ids (lifeCycle dep))
  | TYPE =>
      match getPrototype env (target dep) with
      | Some proto =>
          Some (mkDep (id dep) (RFactory (PConstruct d (reg !! proto))) ids (lifeCycle dep))
      | None => None
      end
  | INSTANCE => Some (mkDep (id dep) (RInstance (target dep)) ids (lifeCycle dep))
  | OtherKind _ => None
  end.

(** The property children the [TYPE] arm pushes for the descriptor at
    [d]. *)
Definition propertyChildren (env : Env) (h : list ResolverMeta) (reg : gmap value addr)
    (d : addr) : list (option addr) :=
  match type (h !!! d), getPrototype env (target (h !!! d)) with
  | TYPE, Some proto =>
      match reg !! proto with
      | Some pm => deps (h !!! pm)
      | None => []
      end
  | _, _ => []
  end.

(** The reference [o] is settled in the container [k]: when it names a
    descriptor whose identifier the registry knows, the identifier of the
    descriptor the registry gives for it is registered in [k]. *)
Definition settledIn (h : list ResolverMeta) (reg : gmap value addr) (k : Opium)
    (o : option addr) : Prop :=
  forall a d, o = Some a -> reg !! id (h !!! a) = Some d ->
    is_Some (getDep k (id (h !!! d))).



(** The member names the property children of [props] are assigned
    under. *)
Definition memberKeys (h : list ResolverMeta) (props : list (option addr)) : list value :=
  omap (fun o : option addr => (fun a => metaKey (h !!! a)) <$> o) props.

(** * Worked examples: environments and states *)

(** Looks a key up in an association list. *)
Fixpoint assoc {K V} `{EqDecision K} (k : K) (l : list (K * V)) : option V :=
  match l with
  | [] => None
  | (k', v) :: rest => if decide (k = k') then Some v else assoc k rest
  end.

(** An environment given by tables: reflected parameter types and return
    types per declaration site, names and prototypes per object, and the
    members that hold a value. Every lifecycle is truthy. *)
Definition tableEnv
    (pts : list (value * value * list value))
    (rts : list (value * value * value))
    (names : list (value * string))
    (protos : list (value * value))
    (members : list (value * value * value)) : Env :=
  {| paramtypes := fun t k => assoc (t, k) pts;
     returntype := fun t k => default VUndef (assoc (t, k) rts);
     nameOf := fun v => from_option VStr VUndef (assoc v names);
     getProp := fun t k => default VUndef (assoc (t, k) members);
     prototypeOf := fun v => default VUndef (assoc v protos);
     lifeCycleTruthy := fun _ => true |}.

(** The objects of the examples. *)
Definition cString : value := VRef 10.
Definition cFoo : value := VRef 1.
Definition cBar : value := VRef 2.
Definition cA : value := VRef 3.
Definition cB : value := VRef 4.
Definition pFoo : value := VRef 21.     (* Foo.prototype *)
Definition pBar : value := VRef 22.     (* Bar.prototype *)
Definition pA : value := VRef 23.       (* A.prototype *)
Definition pB : value := VRef 24.       (* B.prototype *)
Definition fMake : value := VRef 30.    (* a factory function *)

Definition exNames : list (value * string) :=
  [(cString, "String"); (cFoo, "Foo"); (cBar, "Bar"); (cA, "A"); (cB, "B")].

Definition exProtos : list (value * value) :=
  [(cFoo, pFoo); (cBar, pBar); (cA, pA); (cB, pB)].

(** Nothing was reflected: no parameter types, no return types. *)
Definition envBare : Env :=
  tableEnv [] [] exNames exProtos [].

Definition envFoo : Env :=
  tableEnv [((cFoo, VUndef), [cA; cB])] [] exNames exProtos [].

(** The state after [register('foo')(Foo)]. *)
Definition stFoo : State :=
  (register envFoo (VStr "foo") None (Args1 cFoo) initState).1.

Definition envMake : Env :=
  tableEnv [] [((cFoo, VStr "make"), cString)] exNames exProtos [].

Definition envGap : Env :=
  tableEnv [((cFoo, VUndef), [cA; cB]); ((cBar, VUndef), [cFoo])] [] exNames
    exProtos [].

(** [register('b')(Foo, undefined, 1)], [register('p')(Foo, 'p')],
    [register()(Bar)] and [injectableFactory()], in that order. *)
Definition stGap : State :=
  let s1 := (register envGap (VStr "b") None (Args3 cFoo VUndef (DNum 1)) initState).1 in
  let s2 := (register envGap (VStr "p") None (Args2 cFoo (VStr "p")) s1).1 in
  let s3 := (register envGap VUndef None (Args1 cBar) s2).1 in
  (injectableFactory None None s3).1.

(** A diamond: [A] needs [B] and [Bar]; both need [Foo]. *)
Definition envDiamond : Env :=
  tableEnv [((cA, VUndef), [cB; cBar]); ((cB, VUndef), [cFoo]);
            ((cBar, VUndef), [cFoo]); ((cFoo, VUndef), [])] [] exNames exProtos [].

Definition stDiamond : State :=
  let s1 := (register envDiamond VUndef None (Args1 cFoo) initState).1 in
  let s2 := (register envDiamond VUndef None (Args1 cB) s1).1 in
  let s3 := (register envDiamond VUndef None (Args1 cBar) s2).1 in
  (register envDiamond VUndef None (Args1 cA) s3).1.

(** A class [Foo] declared as ['foo'] with a member [p] that is injected
    with ['svc'], which is a class of its own. *)
Definition stProp : State :=
  let s1 := (register envBare (VStr "svc") None (Args2 pFoo (VStr "p")) initState).1 in
  let s2 := (register envBare (VStr "foo") None (Args1 cFoo) s1).1 in
  let s3 := (register envBare (VStr "svc") None (Args1 cA) s2).1 in
  (injectableFactory None None s3).1.

(** The container the traversal from [Foo] leaves. *)
Definition kProp : Opium :=
  default (newOpium None None)
    (rr_container (registerWithContainer envBare stProp (Some 2) (container stProp))).

Definition rtOk : Runtime :=
  {| construct := fun _ _ => Normal (∅ : Obj);
     resolveDep := fun _ => Normal (VStr "service") |}.

(** A class whose only parameter has the reflected type [String]. *)
Definition envString : Env :=
  tableEnv [((cFoo, VUndef), [cString])] [] exNames exProtos [].

(** The container the traversal from [A] leaves over the diamond. *)
Definition kDiamond : Opium :=
  default (newOpium None None)
    (rr_container (registerWithContainer envDiamond stDiamond (Some 5) (Some (newOpium None None)))).

(** A class [Foo] with two injected members, [p] and [q], supplied by the
    classes [A] and [B]. *)
Definition stTwo : State :=
  let s1 := (register envBare (VStr "svc") None (Args2 pFoo (VStr "p")) initState).1 in
  let s2 := (register envBare (VStr "log") None (Args2 pFoo (VStr "q")) s1).1 in
  let s3 := (register envBare (VStr "foo") None (Args1 cFoo) s2).1 in
  let s4 := (register envBare (VStr "svc") None (Args1 cA) s3).1 in
  let s5 := (register envBare (VStr "log") None (Args1 cB) s4).1 in
  (injectableFactory None None s5).1.

(** The container the traversal from [Foo] leaves. *)
Definition kTwo : Opium :=
  default (newOpium None None)
    (rr_container (registerWithContainer envBare stTwo (Some 3) (container stTwo))).

(** Resolves each handle to its own name. *)
Definition rtName : Runtime :=
  {| construct := fun _ _ => Normal (∅ : Obj);
     resolveDep := fun d => Normal (dep_name d) |}.

(** * Lemmas and theorems *)

(** ** Relations every step of a computation keeps *)

Section Stable.
Context (R : State -> State -> Prop) `{!Reflexive R} `{!Transitive R}.

Lemma stable_ret {A} (a : A) : stable R (ret a).
Proof. intros s. reflexivity. Qed.

Lemma stable_throw {A} (e : exn) : stable R (@throw A e).
Proof. intros s. reflexivity. Qed.

Lemma stable_bind {A B} (m : M A) (k : A -> M B) :
  stable R m -> (forall a, stable R (k a)) -> stable R (bind m k).
Proof.
  intros Hm Hk s. unfold bind. specialize (Hm s).
  destruct (m s) as [s1 [a|e]]; simpl in *; [|done].
  etrans; [exact Hm|apply Hk].
Qed.

End Stable.

#[global] Instance keepsLifeCycle_refl : Reflexive keepsLifeCycle.
Proof. intros s a m H. eauto. Qed.

#[global] Instance keepsLifeCycle_trans : Transitive keepsLifeCycle.
Proof.
  intros s1 s2 s3 H12 H23 a m H.
  destruct (H12 a m H) as (m2 & H2 & E2).
  destruct (H23 a m2 H2) as (m3 & H3 & E3).
  exists m3. split; [done|congruence].
Qed.

Lemma klc_alloc : stable keepsLifeCycle alloc.
Proof.
  intros s a m H. simpl. exists m. split; [|done].
  by apply lookup_app_l_Some.
Qed.

Lemma klc_modify a f :
  (forall m, lifeCycle (f m) = lifeCycle m) -> stable keepsLifeCycle (modify a f).
Proof.
  intros Hf s b m H. simpl.
  destruct (decide (a = b)) as [->|Hne].
  - exists (f m). rewrite list_lookup_alter_eq, H. split; [done|apply Hf].
  - exists m. rewrite list_lookup_alter_ne by done. split; done.
Qed.

Lemma klc_readMeta a : stable keepsLifeCycle (readMeta a).
Proof. intros s. reflexivity. Qed.

Lemma klc_getMetadata t k : stable keepsLifeCycle (getMetadata t k).
Proof. intros s. unfold getMetadata. destruct (isObject t); reflexivity. Qed.

Lemma klc_defineMetadata a t k : stable keepsLifeCycle (defineMetadata a t k).
Proof. intros s. unfold defineMetadata. destruct (isObject t); simpl; by intros ? ? ?; eauto. Qed.

Lemma klc_registrySet k a : stable keepsLifeCycle (registrySet k a).
Proof. intros s b m H. simpl. eauto. Qed.

Lemma klc_getName env p : stable keepsLifeCycle (getName env p).
Proof. destruct p; simpl; first [apply stable_ret | apply stable_throw]; apply _. Qed.

Create HintDb klc discriminated.
#[global] Hint Resolve klc_alloc klc_modify klc_readMeta klc_getMetadata
  klc_defineMetadata klc_registrySet klc_getName : klc.

Ltac klc_step :=
  first
    [ apply stable_bind; [apply _ | | intros ?]
    | apply stable_ret; apply _
    | apply stable_throw; apply _
    | solve [eauto with klc] ].

Lemma klc_registerParam env p n a lc i : stable keepsLifeCycle (registerParam env p n a lc i).
Proof.
  unfold registerParam. klc_step; [klc_step|].
  destruct (_ && _); repeat klc_step.
Qed.

Lemma klc_forEachParam env a ps : forall n, stable keepsLifeCycle (forEachParam env a ps n).
Proof.
  induction ps as [|p ps IH]; intros n; simpl; [klc_step|].
  klc_step; [klc_step|]. klc_step; [|apply IH].
  destruct (array_get _ _); [klc_step|apply klc_registerParam].
Qed.

Lemma klc_fetchOrCreate t k : stable keepsLifeCycle (fetchOrCreate t k).
Proof.
  unfold fetchOrCreate. klc_step; [klc_step|].
  destruct a; repeat klc_step.
Qed.

Lemma klc_register env i args : stable keepsLifeCycle (register env i None args).
Proof.
  unfold register. klc_step.
  - destruct (targetTypeOf args).
    + unfold registerConstructor, registerDeps.
      klc_step; [apply klc_fetchOrCreate|].
      repeat (klc_step; [klc_step|]).
      klc_step; [apply klc_forEachParam|klc_step].
    + unfold registerProperty.
      klc_step; [apply klc_fetchOrCreate|].
      repeat (klc_step; [klc_step|]).
      klc_step; [|klc_step].
      destruct (decide _); repeat klc_step.
    + unfold registerMethod, registerDeps.
      klc_step; [apply klc_fetchOrCreate|].
      destruct (argDescriptor args).
      * klc_step.
      * klc_step; [apply klc_registerParam|klc_step].
      * repeat (klc_step; [klc_step|]).
        klc_step; [apply klc_forEachParam|klc_step].
    + klc_step.
  - destruct a; repeat klc_step.
Qed.

(** ** Fresh descriptors and lifecycles *)

(** C10. A descriptor created by [new ResolverMeta()] has kind [TYPE] and
    lifecycle [SINGLETON], and [alloc] stores exactly that descriptor; a
    declaration made without a lifecycle argument ([register(id)(...args)],
    whatever the arguments and however it completes) leaves every existing
    descriptor its lifecycle. *)
Theorem fresh_defaults_and_lifeCycle_kept :
  type newMeta = TYPE /\ lifeCycle newMeta = SINGLETON /\
  (forall s, (alloc s).2 = Normal (length (heap s)) /\
             heap (alloc s).1 !! length (heap s) = Some newMeta) /\
  (forall env i args s a m,
     heap s !! a = Some m ->
     exists m', heap (register env i None args s).1 !! a = Some m' /\
                lifeCycle m' = lifeCycle m).
Proof.
  split; [reflexivity|]. split; [reflexivity|]. split.
  - intros s. split; [reflexivity|]. simpl.
    rewrite lookup_app_r by lia. by rewrite Nat.sub_diag.
  - intros env i args s a m H. exact (klc_register env i args s a m H).
Qed.

(** ** Declaring a parameter *)

Lemma registerParam_undefined env n a lc i s :
  registerParam env VUndef n a lc i s =
    (s, Throw (TypeError "Cannot read property 'name' of undefined")).
Proof. reflexivity. Qed.

Lemma registerParam_object env p n a lc i s :
  isObject p = true ->
  registerParam env p n a lc i s =
    if isSimpleType (nameOf env p) && negb (truthy i)
    then (s, Throw (MissingIdentifierError (nameOf env p)))
    else (withChild i p n a s, Normal tt).
Proof.
  intros Hp. destruct p; try discriminate.
  unfold registerParam, bind; simpl.
  destruct (isSimpleType _ && _); reflexivity.
Qed.

Lemma array_get_set_eq {A} (l : list (option A)) i x :
  array_get (array_set l i x) i = Some x.
Proof.
  unfold array_get, array_set. destruct (decide (i < length l)).
  - by rewrite list_lookup_insert_eq.
  - rewrite lookup_app_r by lia. rewrite lookup_app_r; rewrite length_replicate; [|lia].
    by rewrite Nat.sub_diag.
Qed.

Lemma withChild_child i p n a s :
  a < length (heap s) ->
  array_get (deps (heap (withChild i p n a s) !!! a)) n = Some (length (heap s)) /\
  heap (withChild i p n a s) !! length (heap s) = Some (set_id (jsOr i p) newMeta).
Proof.
  intros Ha. unfold withChild; simpl. split.
  - rewrite list_lookup_total_alter_eq; [|rewrite length_alter, length_app; simpl; lia].
    simpl. apply array_get_set_eq.
  - rewrite list_lookup_alter_ne by lia. rewrite list_lookup_alter_eq.
    rewrite lookup_app_r by lia. by rewrite Nat.sub_diag.
Qed.

(** The part of C3 the code keeps: a parameter whose reflected type is an
    object named like a simple type is refused without an identifier, state
    untouched, and accepted with one, the child being placed at its index. *)
Lemma registerParam_simple_named env p n a lc i s :
  isObject p = true ->
  isSimpleType (nameOf env p) = true ->
  a < length (heap s) ->
  (truthy i = false ->
     registerParam env p n a lc i s = (s, Throw (MissingIdentifierError (nameOf env p)))) /\
  (truthy i = true ->
     exists s', registerParam env p n a lc i s = (s', Normal tt) /\
       array_get (deps (heap s' !!! a)) n = Some (length (heap s)) /\
       heap s' !! length (heap s) = Some (set_id i newMeta)).
Proof.
  intros Hp Hs Ha. rewrite registerParam_object by done. rewrite Hs. split; intros Hi; rewrite Hi; simpl.
  - reflexivity.
  - exists (withChild i p n a s). split; [reflexivity|].
    destruct (withChild_child i p n a s Ha) as [H1 H2]. split; [done|].
    rewrite H2. unfold jsOr. by rewrite Hi.
Qed.

Example string_parameter_needs_identifier :
  let env := tableEnv [((cFoo, VUndef), [cString])] [] exNames exProtos [] in
  (register env VUndef None (Args3 cFoo VUndef (DNum 0)) initState).2
    = Throw (MissingIdentifierError (VStr "String")) /\
  (register env (VStr "my-id") None (Args3 cFoo VUndef (DNum 0)) initState).2 = Normal tt /\
  deps (heap (register env (VStr "my-id") None (Args3 cFoo VUndef (DNum 0)) initState).1 !!! 0)
    = [Some 1].
Proof. vm_compute. repeat split; reflexivity. Qed.

(** C3, at the failing input. When the reflected type of the parameter is
    absent ([undefined], as [annotatedDeps[descriptor]] is when nothing was
    reflected), [registerParam] throws a [TypeError] from [param.name],
    identifier or not, and stores nothing; so does the parameter decorator
    [register('my-id')(Foo, undefined, 0)] on a class without reflected
    parameter types. *)
Theorem registerParam_unreflected_throws :
  (forall env n a lc i s,
     registerParam env VUndef n a lc i s =
       (s, Throw (TypeError "Cannot read property 'name' of undefined"))) /\
  (let r := register envBare (VStr "my-id") None (Args3 cFoo VUndef (DNum 0)) initState in
   r.2 = Throw (TypeError "Cannot read property 'name' of undefined") /\
   deps (heap r.1 !!! 0) = []).
Proof.
  split; [intros; apply registerParam_undefined|].
  vm_compute. split; reflexivity.
Qed.

(** ** What a parameter declaration does to the state *)

Lemma registerParam_eq env p n a lc i s :
  registerParam env p n a lc i s =
    if paramAccepted env p i then (withChild i p n a s, Normal tt)
    else (s, Throw (paramError env p)).
Proof.
  destruct p; unfold registerParam, bind; simpl; try reflexivity;
    destruct (isSimpleType _ && _); reflexivity.
Qed.

Lemma array_get_set_other {A} (l : list (option A)) i j x :
  i <> j -> array_get (array_set l i x) j = array_get l j.
Proof.
  unfold array_get, array_set. intros Hne.
  destruct (decide (i < length l)).
  - by rewrite list_lookup_insert_ne.
  - destruct (decide (j < length l)).
    + by rewrite lookup_app_l.
    + rewrite lookup_app_r by lia. rewrite (lookup_ge_None_2 l j) by lia.
      destruct (decide (j - length l < i - length l)).
      * rewrite lookup_app_l by (rewrite length_replicate; lia).
        rewrite lookup_replicate_2 by lia. reflexivity.
      * rewrite lookup_app_r by (rewrite length_replicate; lia).
        rewrite length_replicate.
        rewrite lookup_ge_None_2; [reflexivity|simpl; lia].
Qed.

Lemma array_get_set_mono {A} (l : list (option A)) i j x :
  is_Some (array_get l j) -> is_Some (array_get (array_set l i x) j).
Proof.
  intros H. destruct (decide (i = j)) as [->|Hne].
  - rewrite array_get_set_eq. eauto.
  - by rewrite array_get_set_other.
Qed.

Lemma depsGrow_refl a s : depsGrow a s s.
Proof.
  repeat split; try done. intros Ha. exists (deps (heap s !!! a)).
  split; [by destruct (heap s !!! a)|done].
Qed.

Lemma depsGrow_trans a s1 s2 s3 : depsGrow a s1 s2 -> depsGrow a s2 s3 -> depsGrow a s1 s3.
Proof.
  intros (M1 & R1 & C1 & D1 & L1 & O1 & S1) (M2 & R2 & C2 & D2 & L2 & O2 & S2).
  repeat split; try congruence; try lia.
  - intros b Hb Hne. rewrite O2 by (done || lia). by apply O1.
  - intros Ha. destruct (S1 Ha) as (ds1 & E1 & Mono1).
    destruct S2 as (ds2 & E2 & Mono2); [lia|].
    exists ds2. split.
    + rewrite E2, E1. reflexivity.
    + intros n Hn. apply Mono2. rewrite E1. simpl. by apply Mono1.
Qed.

Lemma depsGrow_withChild i p n a s : depsGrow a s (withChild i p n a s).
Proof.
  unfold withChild. repeat split; simpl.
  - rewrite !length_alter, length_app. simpl. lia.
  - intros b Hb Hne. rewrite list_lookup_alter_ne by done.
    rewrite list_lookup_alter_ne by lia. by rewrite lookup_app_l.
  - intros Ha. eexists. split.
    + rewrite list_lookup_total_alter_eq by (rewrite length_alter, length_app; simpl; lia).
      rewrite list_lookup_total_alter_ne by lia.
      rewrite lookup_total_app_l by done. reflexivity.
    + intros k Hk. by apply array_get_set_mono.
Qed.

Lemma withChild_deps i p n a s :
  a < length (heap s) ->
  deps (heap (withChild i p n a s) !!! a) = array_set (deps (heap s !!! a)) n (length (heap s)).
Proof.
  intros Ha. unfold withChild; simpl.
  rewrite list_lookup_total_alter_eq by (rewrite length_alter, length_app; simpl; lia).
  rewrite list_lookup_total_alter_ne by lia.
  by rewrite lookup_total_app_l.
Qed.

Lemma depsGrow_registerParam env p n a lc i s :
  depsGrow a s (registerParam env p n a lc i s).1.
Proof.
  rewrite registerParam_eq. destruct (paramAccepted env p i); simpl.
  - apply depsGrow_withChild.
  - apply depsGrow_refl.
Qed.

Lemma depsGrow_forEachParam env a ps : forall n s,
  depsGrow a s (forEachParam env a ps n s).1.
Proof.
  induction ps as [|p ps IH]; intros n s; simpl; [apply depsGrow_refl|].
  unfold bind, readMeta at 1.
  destruct (array_get (deps (heap s !!! a)) n) as [d|] eqn:E.
  - simpl. apply IH.
  - pose proof (depsGrow_registerParam env p n a None VUndef s) as Hp.
    destruct (registerParam env p n a None VUndef s) as [s1 [[]|e]]; simpl in *; [|done].
    eapply depsGrow_trans; [exact Hp|apply IH].
Qed.

(** After a [forEach] that completes, every index it visited holds a
    descriptor. *)
Lemma forEachParam_fills env a ps : forall n s s',
  a < length (heap s) ->
  forEachParam env a ps n s = (s', Normal tt) ->
  forall k, n <= k < n + length ps -> is_Some (array_get (deps (heap s' !!! a)) k).
Proof.
  induction ps as [|p ps IH]; intros n s s' Ha Hrun k Hk; simpl in *; [lia|].
  unfold bind, readMeta at 1 in Hrun.
  destruct (array_get (deps (heap s !!! a)) n) as [d|] eqn:E; simpl in Hrun.
  - destruct (decide (k = n)) as [->|Hne]; [|apply (IH (S n) s s' Ha Hrun k); lia].
    pose proof (depsGrow_forEachParam env a ps (S n) s) as G. rewrite Hrun in G. simpl in G.
    destruct G as (_ & _ & _ & _ & _ & _ & G). destruct (G Ha) as (ds & Eds & Mono).
    rewrite Eds. simpl. apply Mono. rewrite E. eauto.
  - rewrite registerParam_eq in Hrun.
    destruct (paramAccepted env p VUndef); [|discriminate].
    pose proof (depsGrow_withChild VUndef p n a s) as (_ & _ & _ & _ & L & _ & _).
    destruct (decide (k = n)) as [->|Hne];
      [|apply (IH (S n) (withChild VUndef p n a s) s' ltac:(lia) Hrun k); lia].
    pose proof (depsGrow_forEachParam env a ps (S n) (withChild VUndef p n a s)) as G.
    rewrite Hrun in G. simpl in G.
    destruct G as (_ & _ & _ & _ & _ & _ & G). destruct G as (ds & Eds & Mono); [lia|].
    rewrite Eds. simpl. apply Mono. rewrite withChild_deps by done.
    rewrite array_get_set_eq. eauto.
Qed.

(** A [forEach] that completes met, at every index that had no descriptor, a
    reflected type it accepts without an identifier. *)
Lemma forEachParam_implicit env a ps : forall n s s',
  a < length (heap s) ->
  forEachParam env a ps n s = (s', Normal tt) ->
  forall k p, ps !! k = Some p ->
    array_get (deps (heap s !!! a)) (n + k) = None ->
    paramAccepted env p VUndef = true.
Proof.
  induction ps as [|q ps IH]; intros n s s' Ha Hrun k p Hk Hnone; simpl in *; [done|].
  unfold bind, readMeta at 1 in Hrun.
  destruct (array_get (deps (heap s !!! a)) n) as [d|] eqn:E; simpl in Hrun.
  - destruct k as [|k]; simpl in Hk.
    + rewrite Nat.add_0_r in Hnone. congruence.
    + apply (IH (S n) s s' Ha Hrun k p Hk).
      by replace (S n + k) with (n + S k) by lia.
  - rewrite registerParam_eq in Hrun.
    destruct (paramAccepted env q VUndef) eqn:Hacc; [|discriminate].
    destruct k as [|k]; simpl in Hk; [congruence|].
    pose proof (depsGrow_withChild VUndef q n a s) as (_ & _ & _ & _ & L & _ & _).
    apply (IH (S n) (withChild VUndef q n a s) s' ltac:(lia) Hrun k p Hk).
    rewrite withChild_deps by done. rewrite array_get_set_other by lia.
    by replace (S n + k) with (n + S k) by lia.
Qed.

(** A [forEach] that throws was stopped by one of the reflected types. *)
Lemma forEachParam_throw env a ps : forall n s s' e,
  forEachParam env a ps n s = (s', Throw e) ->
  exists p, p ∈ ps /\ paramAccepted env p VUndef = false /\ e = paramError env p.
Proof.
  induction ps as [|q ps IH]; intros n s s' e Hrun; simpl in *; [done|].
  unfold bind, readMeta at 1 in Hrun.
  destruct (array_get (deps (heap s !!! a)) n) as [d|] eqn:E; simpl in Hrun.
  - destruct (IH _ _ _ _ Hrun) as (p & Hp & Hrest). exists p. split; [by right|done].
  - rewrite registerParam_eq in Hrun.
    destruct (paramAccepted env q VUndef) eqn:Hacc.
    + destruct (IH _ _ _ _ Hrun) as (p & Hp & Hrest). exists p. split; [by right|done].
    + exists q. split; [by left|]. split; [done|congruence].
Qed.

(** A [forEach] over indexes that all hold a descriptor changes nothing. *)
Lemma forEachParam_idle env a ps : forall n s,
  (forall k, n <= k < n + length ps -> is_Some (array_get (deps (heap s !!! a)) k)) ->
  forEachParam env a ps n s = (s, Normal tt).
Proof.
  induction ps as [|q ps IH]; intros n s Hall; simpl in *; [done|].
  unfold bind, readMeta at 1.
  destruct (Hall n) as [d Hd]; [lia|]. rewrite Hd. simpl.
  apply IH. intros k Hk. apply Hall. lia.
Qed.

(** ** The arms of [register], by the state they lead to *)

Lemma fetchOrCreate_eq tgt key s :
  fetchOrCreate tgt key s =
    if isObject tgt then
      match metadata s !! (tgt, key) with
      | Some a => (s, Normal a)
      | None => (created tgt key s, Normal (length (heap s)))
      end
    else (s, Throw (TypeError "Reflect.getMetadata: target is not an object")).
Proof.
  unfold fetchOrCreate, bind, getMetadata. destruct (isObject tgt) eqn:E; [|done].
  destruct (metadata s !! (tgt, key)); [done|].
  simpl. unfold defineMetadata. simpl. rewrite E. reflexivity.
Qed.

Lemma registerConstructor_eq env i lc tgt key s :
  registerConstructor env i lc tgt key s =
    match fetchOrCreate tgt key s with
    | (s1, Normal a) => finishRoot env a tgt key (rootInit (ctorUpdate env i lc tgt) a s1)
    | (s1, Throw e) => (s1, Throw e)
    end.
Proof.
  unfold registerConstructor, finishRoot. unfold bind at 1.
  destruct (fetchOrCreate tgt key s) as [s1 [a|e]]; [|done].
  unfold bind, modify, ret, rootInit, with_heap; simpl.
  rewrite !list_alter_alter_eq.
  replace (alter (set_id (jsOr i tgt) ∘ set_target tgt ∘
                  (fun m => set_lifeCycle (lcOr env lc (lifeCycle m)) m) ∘ set_type TYPE) a (heap s1))
    with (alter (ctorUpdate env i lc tgt) a (heap s1)) by (by apply list_alter_ext).
  destruct (registerDeps _ _ _ _ _) as [s3 [[]|e]]; reflexivity.
Qed.

Lemma registerFactory_eq env i lc tgt key v acc s :
  registerMethod env i lc tgt key (DObj v acc) s =
    match fetchOrCreate tgt key s with
    | (s1, Normal a) => finishRoot env a tgt key (rootInit (factoryUpdate env i lc tgt key v) a s1)
    | (s1, Throw e) => (s1, Throw e)
    end.
Proof.
  unfold registerMethod, finishRoot. unfold bind at 1.
  destruct (fetchOrCreate tgt key s) as [s1 [a|e]]; [|done].
  unfold bind, modify, ret, rootInit, with_heap; simpl.
  rewrite !list_alter_alter_eq.
  replace (alter (set_id (jsOr i (returntype env tgt key)) ∘
                  (fun m => set_lifeCycle (lcOr env lc (lifeCycle m)) m) ∘
                  set_target v ∘ set_type FACTORY) a (heap s1))
    with (alter (factoryUpdate env i lc tgt key v) a (heap s1)) by (by apply list_alter_ext).
  destruct (registerDeps _ _ _ _ _) as [s3 [[]|e]]; reflexivity.
Qed.

Lemma registerParamArm_eq env i lc tgt key n s :
  registerMethod env i lc tgt key (DNum n) s =
    match fetchOrCreate tgt key s with
    | (s1, Normal a) =>
        match registerParam env (default VUndef (paramtypesOrEmpty env tgt key !! n)) n a lc i s1 with
        | (s2, Normal _) => (s2, Normal None)
        | (s2, Throw e) => (s2, Throw e)
        end
    | (s1, Throw e) => (s1, Throw e)
    end.
Proof.
  unfold registerMethod. unfold bind at 1.
  destruct (fetchOrCreate tgt key s) as [s1 [a|e]]; [|done].
  unfold bind, ret. destruct (registerParam _ _ _ _ _ _ _) as [s2 [[]|e]]; reflexivity.
Qed.

Lemma registerProperty_eq env i tgt key s :
  registerProperty env i tgt key s =
    match fetchOrCreate tgt VUndef s with
    | (s1, Normal a) => (withProperty env i tgt key a s1, Normal (Some a))
    | (s1, Throw e) => (s1, Throw e)
    end.
Proof.
  unfold registerProperty. unfold bind at 1.
  destruct (fetchOrCreate tgt VUndef s) as [s1 [a|e]]; [|done].
  unfold withProperty, bind, modify, alloc, ret, registrySet, with_heap, with_registry; simpl.
  destruct (decide (getProp env tgt key = VUndef)); simpl;
    rewrite !list_alter_alter_eq; reflexivity.
Qed.

Lemma register_eq env i lc args s :
  register env i lc args s =
    finalSet (argTarget args)
      (match targetTypeOf args with
       | CONSTRUCTOR => registerConstructor env i lc (argTarget args) (argKey args) s
       | PROPERTY => registerProperty env i (argTarget args) (argKey args) s
       | METHOD => registerMethod env i lc (argTarget args) (argKey args) (argDescriptor args) s
       | NoTarget => (s, Normal None)
       end).
Proof.
  unfold register, finalSet, bind.
  destruct (targetTypeOf args); simpl.
  - destruct (registerConstructor _ _ _ _ _ _) as [s1 [[a|]|e]]; reflexivity.
  - destruct (registerProperty _ _ _ _ _) as [s1 [[a|]|e]]; reflexivity.
  - destruct (registerMethod _ _ _ _ _ _ _) as [s1 [[a|]|e]]; reflexivity.
  - reflexivity.
Qed.

(** ** Declaration sites and root declarations *)

Lemma register_root_eq env i lc args s :
  isRoot args = true ->
  register env i lc args s =
    finalSet (argTarget args)
      (match fetchOrCreate (argTarget args) (argKey args) s with
       | (s1, Normal a) =>
           finishRoot env a (argTarget args) (argKey args)
             (rootInit (rootUpdate env i lc args) a s1)
       | (s1, Throw e) => (s1, Throw e)
       end).
Proof.
  intros Hroot. rewrite register_eq. unfold isRoot, rootUpdate in *.
  destruct (targetTypeOf args); try discriminate.
  - by rewrite registerConstructor_eq.
  - destruct (argDescriptor args); try discriminate. by rewrite registerFactory_eq.
Qed.

Lemma site_root args : isRoot args = true -> site args = (argTarget args, argKey args).
Proof. unfold isRoot, site. by destruct (targetTypeOf args). Qed.

(** ** Well-formed states *)

Lemma live_init : live initState.
Proof. split; intros k a H; simpl in H; by rewrite lookup_empty in H. Qed.

Lemma live_depsGrow a s s' : live s -> depsGrow a s s' -> live s'.
Proof.
  intros [Hm Hr] (M & R & _ & _ & L & _). split; intros k b H.
  - rewrite M in H. specialize (Hm _ _ H). lia.
  - rewrite R in H. specialize (Hr _ _ H). lia.
Qed.

Lemma live_rootInit f a s : live s -> live (rootInit f a s).
Proof.
  intros [Hm Hr]. split; intros k b H; simpl in *; rewrite length_alter; eauto.
Qed.

Lemma live_created tgt key s : live s -> live (created tgt key s).
Proof.
  intros [Hm Hr]. split; intros k b H; simpl in *; rewrite length_alter, length_app; simpl.
  - destruct (decide ((tgt, key) = k)) as [<-|Hne].
    + rewrite lookup_insert_eq in H. simplify_eq. lia.
    + rewrite lookup_insert_ne in H by done. specialize (Hm _ _ H). lia.
  - specialize (Hr _ _ H). lia.
Qed.

Lemma fetchOrCreate_live tgt key s s1 a :
  live s -> fetchOrCreate tgt key s = (s1, Normal a) ->
  live s1 /\ a < length (heap s1) /\ metadata s1 !! (tgt, key) = Some a /\
  isObject tgt = true /\ registry s1 = registry s /\
  length (heap s) <= length (heap s1).
Proof.
  intros Hl. rewrite fetchOrCreate_eq. destruct (isObject tgt); [|discriminate].
  destruct (metadata s !! (tgt, key)) as [b|] eqn:E; intros H; simplify_eq.
  - repeat split; try done; try apply Hl. by eapply (proj1 Hl).
  - split; [by apply live_created|]. simpl.
    rewrite length_alter, length_app, lookup_insert_eq. simpl. repeat split; try done; lia.
Qed.

Lemma fetchOrCreate_throw_state tgt key s s1 e :
  fetchOrCreate tgt key s = (s1, Throw e) -> s1 = s /\ isObject tgt = false.
Proof.
  rewrite fetchOrCreate_eq. destruct (isObject tgt); [|by intros; simplify_eq].
  destruct (metadata s !! (tgt, key)); discriminate.
Qed.

Lemma live_withChild i p n a s : live s -> live (withChild i p n a s).
Proof. intros Hl. eapply live_depsGrow; [exact Hl|apply depsGrow_withChild]. Qed.

Lemma live_withProperty env i tgt key a s : live s -> live (withProperty env i tgt key a s).
Proof.
  intros [Hm Hr]. unfold withProperty.
  destruct (decide _); split; intros k b H; simpl in *;
    rewrite ?length_alter, length_app; simpl.
  - specialize (Hm _ _ H). lia.
  - specialize (Hr _ _ H). lia.
  - specialize (Hm _ _ H). lia.
  - destruct (decide (i = k)) as [<-|Hne].
    + rewrite lookup_insert_eq in H. simplify_eq. lia.
    + rewrite lookup_insert_ne in H by done. specialize (Hr _ _ H). lia.
Qed.

Lemma live_finalSet tgt s r :
  live s -> (forall a, r = Normal (Some a) -> a < length (heap s)) ->
  live (finalSet tgt (s, r)).1.
Proof.
  intros Hl Ha. destruct r as [[a|]|e]; simpl; try done.
  destruct Hl as [Hm Hr]. split; intros k b H; simpl in *; [eauto|].
  destruct (decide (registryKey s a tgt = k)) as [<-|Hne].
  - rewrite lookup_insert_eq in H. simplify_eq. by apply Ha.
  - rewrite lookup_insert_ne in H by done. eauto.
Qed.

Lemma finishRoot_grow env a tgt key s :
  depsGrow a s (finishRoot env a tgt key s).1 /\
  forall b, (finishRoot env a tgt key s).2 = Normal (Some b) -> b = a.
Proof.
  unfold finishRoot, registerDeps.
  pose proof (depsGrow_forEachParam env a (paramtypesOrEmpty env tgt key) 0 s) as G.
  destruct (forEachParam _ _ _ _ _) as [s3 [[]|e]]; simpl in *; split; try done.
  by intros b [= ->].
Qed.

Lemma register_live env i lc args s : live s -> live (register env i lc args s).1.
Proof.
  intros Hl. rewrite register_eq.
  destruct (targetTypeOf args).
  - rewrite registerConstructor_eq.
    destruct (fetchOrCreate _ _ s) as [s1 [a|e]] eqn:F.
    + destruct (fetchOrCreate_live _ _ _ _ _ Hl F) as (Hl1 & Ha & _).
      destruct (finishRoot_grow env a (argTarget args) (argKey args)
                  (rootInit (ctorUpdate env i lc (argTarget args)) a s1)) as [G Hb].
      destruct (finishRoot _ _ _ _ _) as [s3 r] eqn:E; simpl in *.
      apply live_finalSet.
      * eapply live_depsGrow; [|exact G]. by apply live_rootInit.
      * intros b ->. rewrite (Hb b eq_refl).
        destruct G as (_ & _ & _ & _ & L & _). simpl in L. rewrite length_alter in L. lia.
    + destruct (fetchOrCreate_throw_state _ _ _ _ _ F) as [-> _]. done.
  - rewrite registerProperty_eq.
    destruct (fetchOrCreate _ _ s) as [s1 [a|e]] eqn:F.
    + destruct (fetchOrCreate_live _ _ _ _ _ Hl F) as (Hl1 & Ha & _).
      apply live_finalSet; [by apply live_withProperty|].
      intros b [= ->]. unfold withProperty.
      destruct (decide _); simpl; rewrite ?length_alter, length_app; lia.
    + destruct (fetchOrCreate_throw_state _ _ _ _ _ F) as [-> _]. done.
  - destruct (argDescriptor args) as [|n|v acc].
    + unfold registerMethod. unfold bind at 1.
      destruct (fetchOrCreate _ _ s) as [s1 [a|e]] eqn:F; simpl.
      * by destruct (fetchOrCreate_live _ _ _ _ _ Hl F) as (Hl1 & _).
      * destruct (fetchOrCreate_throw_state _ _ _ _ _ F) as [-> _]. done.
    + rewrite registerParamArm_eq.
      destruct (fetchOrCreate _ _ s) as [s1 [a|e]] eqn:F.
      * destruct (fetchOrCreate_live _ _ _ _ _ Hl F) as (Hl1 & Ha & _).
        rewrite registerParam_eq. destruct (paramAccepted _ _ _); simpl; [|done].
        by apply live_withChild.
      * destruct (fetchOrCreate_throw_state _ _ _ _ _ F) as [-> _]. done.
    + rewrite registerFactory_eq.
      destruct (fetchOrCreate _ _ s) as [s1 [a|e]] eqn:F.
      * destruct (fetchOrCreate_live _ _ _ _ _ Hl F) as (Hl1 & Ha & _).
        destruct (finishRoot_grow env a (argTarget args) (argKey args)
                    (rootInit (factoryUpdate env i lc (argTarget args) (argKey args) v) a s1))
          as [G Hb].
        destruct (finishRoot _ _ _ _ _) as [s3 r] eqn:E; simpl in *.
        apply live_finalSet.
        -- eapply live_depsGrow; [|exact G]. by apply live_rootInit.
        -- intros b ->. rewrite (Hb b eq_refl).
           destruct G as (_ & _ & _ & _ & L & _). simpl in L. rewrite length_alter in L. lia.
      * destruct (fetchOrCreate_throw_state _ _ _ _ _ F) as [-> _]. done.
  - done.
Qed.

Lemma Declared_live env s : Declared env s -> live s.
Proof.
  induction 1 as [|s i lc args _ IH|s s' _ IH Hh Hm Hr];
    [apply live_init|by apply register_live|].
  destruct IH as [H1 H2]. split; intros k a; rewrite ?Hm, ?Hr, Hh; eauto.
Qed.

(** ** Root declarations, step by step *)

Lemma lcOr_idem env lc l : lcOr env lc (lcOr env lc l) = lcOr env lc l.
Proof. destruct lc as [x|]; simpl; [|done]. by destruct (lifeCycleTruthy env x) eqn:E; rewrite ?E. Qed.

Lemma rootUpdate_deps env i lc args m : deps (rootUpdate env i lc args m) = deps m.
Proof. unfold rootUpdate. by destruct (targetTypeOf args), (argDescriptor args). Qed.

Lemma rootUpdate_idem env i lc args ds m :
  rootUpdate env i lc args (set_deps ds (rootUpdate env i lc args m)) =
  set_deps ds (rootUpdate env i lc args m).
Proof.
  unfold rootUpdate.
  destruct (targetTypeOf args), (argDescriptor args);
    unfold ctorUpdate, factoryUpdate, set_deps; simpl; by rewrite lcOr_idem.
Qed.

Lemma alter_fixed {A} (f : A -> A) (l : list A) i x :
  l !! i = Some x -> f x = x -> alter f i l = l.
Proof.
  intros Hx Hf. rewrite <- (list_alter_id (fun y => y) l i) at 2 by done.
  apply list_alter_ext; [|done]. intros y Hy. congruence.
Qed.

Lemma with_registry_same s : with_registry (registry s) s = s.
Proof. by destruct s. Qed.

Lemma with_heap_same s : with_heap (heap s) s = s.
Proof. by destruct s. Qed.

(** A root declaration that completes: the descriptor [a] of its site was
    fetched or created, updated, given its missing children, and stored in
    the registry. *)
Lemma root_declared env i lc args s s1 :
  isRoot args = true ->
  register env i lc args s = (s1, Normal tt) ->
  exists a s0 s2,
    fetchOrCreate (argTarget args) (argKey args) s = (s0, Normal a) /\
    forEachParam env a (paramtypesOrEmpty env (argTarget args) (argKey args)) 0
      (rootInit (rootUpdate env i lc args) a s0) = (s2, Normal tt) /\
    s1 = with_registry (<[registryKey s2 a (argTarget args) := a]> (registry s2)) s2.
Proof.
  intros Hroot. rewrite register_root_eq by done.
  destruct (fetchOrCreate _ _ s) as [s0 [a|e]] eqn:F; [|discriminate].
  unfold finishRoot, registerDeps.
  destruct (forEachParam _ _ _ _ _) as [s2 [[]|e]] eqn:E; [|discriminate].
  simpl. intros [= <-]. exists a, s0, s2. repeat split; done.
Qed.

(** A root declaration that throws: either the target is not an object, or a
    reflected parameter type stopped it; the registry is as before. *)
Lemma root_thrown env i lc args s s1 e :
  isRoot args = true ->
  register env i lc args s = (s1, Throw e) ->
  registry s1 = registry s /\
  (isObject (argTarget args) = false \/
   exists p, p ∈ paramtypesOrEmpty env (argTarget args) (argKey args) /\
     paramAccepted env p VUndef = false /\ e = paramError env p).
Proof.
  intros Hroot. rewrite register_root_eq by done.
  rewrite fetchOrCreate_eq. destruct (isObject (argTarget args)) eqn:Hobj.
  - set (s0a := match metadata s !! (argTarget args, argKey args) with
                | Some a => (s, Normal a)
                | None => (created (argTarget args) (argKey args) s, Normal (length (heap s)))
                end).
    assert (exists s0 a, s0a = (s0, Normal a) /\ registry s0 = registry s) as (s0 & a & -> & Hr).
    { unfold s0a. destruct (metadata s !! _); eauto. }
    unfold finishRoot, registerDeps.
    pose proof (depsGrow_forEachParam env a
      (paramtypesOrEmpty env (argTarget args) (argKey args)) 0
      (rootInit (rootUpdate env i lc args) a s0)) as G.
    destruct (forEachParam _ _ _ _ _) as [s2 [[]|e']] eqn:E; [discriminate|].
    simpl. intros [= <- <-]. split.
    + destruct G as (_ & R & _). simpl in R. congruence.
    + right. by eapply forEachParam_throw.
  - simpl. intros [= <- <-]. split; [done|by left].
Qed.

(** What the descriptor of the site looks like after a root declaration that
    completes. *)
Lemma root_declared_facts env i lc args s s1 :
  live s ->
  isRoot args = true ->
  register env i lc args s = (s1, Normal tt) ->
  let tgt := argTarget args in
  let key := argKey args in
  exists a m0 ds,
    a < length (heap s1) /\
    metadata s1 !! (tgt, key) = Some a /\
    heap s1 !! a = Some (set_deps ds (rootUpdate env i lc args m0)) /\
    (forall n, array_get (deps m0) n = declaredAt s tgt key n) /\
    (forall n, n < length (paramtypesOrEmpty env tgt key) -> is_Some (array_get ds n)) /\
    (forall n p, paramtypesOrEmpty env tgt key !! n = Some p ->
       declaredAt s tgt key n = None -> paramAccepted env p VUndef = true) /\
    registry s1 !! registryKey s1 a tgt = Some a /\
    (forall b, metadata s !! (tgt, key) = Some b -> b = a /\ metadata s1 = metadata s) /\
    isObject tgt = true.
Proof.
  intros Hl Hroot Hrun tgt key.
  destruct (root_declared _ _ _ _ _ _ Hroot Hrun) as (a & s0 & s2 & F & E & ->).
  destruct (fetchOrCreate_live _ _ _ _ _ Hl F) as (Hl0 & Ha & Hm0 & Hobj & Hr0 & L0).
  pose proof (depsGrow_forEachParam env a (paramtypesOrEmpty env tgt key) 0
                (rootInit (rootUpdate env i lc args) a s0)) as G.
  fold tgt key in E. rewrite E in G.
  destruct G as (M & R & _ & _ & L & _ & S). simpl in M, R, L, S.
  rewrite length_alter in L, S. destruct (S Ha) as (ds & Eds & _).
  rewrite list_lookup_total_alter_eq in Eds by done.
  assert (Ha2 : a < length (heap s2)) by lia.
  assert (Hai : a < length (heap (rootInit (rootUpdate env i lc args) a s0)))
    by (simpl; by rewrite length_alter).
  exists a, (heap s0 !!! a), ds. simpl.
  split; [done|]. split; [by rewrite M|]. split.
  { rewrite <- Eds. by apply list_lookup_lookup_total_lt. }
  split.
  { intros n. unfold declaredAt. revert F. rewrite fetchOrCreate_eq, Hobj. fold tgt key.
    destruct (metadata s !! (tgt, key)) as [b|]; intros [= <- <-]; [done|].
    simpl. rewrite list_lookup_total_alter_eq by (rewrite length_app; simpl; lia).
    rewrite lookup_total_app_r by lia. rewrite Nat.sub_diag. reflexivity. }
  split.
  { intros n Hn.
    pose proof (forEachParam_fills env a _ 0 _ _ Hai E n ltac:(lia)) as Hf.
    by rewrite Eds in Hf. }
  split.
  { intros n p Hp Hnone.
    refine (forEachParam_implicit env a _ 0 _ _ Hai E n p Hp _).
    simpl. rewrite list_lookup_total_alter_eq by done. rewrite rootUpdate_deps.
    revert F Hnone. unfold declaredAt. rewrite fetchOrCreate_eq, Hobj. fold tgt key.
    destruct (metadata s !! (tgt, key)) as [b|]; intros [= <- <-]; [done|].
    intros _. simpl. rewrite list_lookup_total_alter_eq by (rewrite length_app; simpl; lia).
    rewrite lookup_total_app_r by lia. rewrite Nat.sub_diag. reflexivity. }
  split; [by rewrite lookup_insert_eq|]. split; [|done].
  intros b Hb. revert F. rewrite fetchOrCreate_eq, Hobj. fold tgt key. rewrite Hb.
  intros [= <- <-]. split; [done|]. by rewrite M.
Qed.

(** Declaring the same root a second time changes nothing at all. *)
Lemma root_redeclared env i lc args s s1 :
  live s ->
  isRoot args = true ->
  register env i lc args s = (s1, Normal tt) ->
  register env i lc args s1 = (s1, Normal tt).
Proof.
  intros Hl Hroot Hrun.
  destruct (root_declared_facts _ _ _ _ _ _ Hl Hroot Hrun)
    as (a & m0 & ds & Ha & Hmeta & Hheap & _ & Hfill & _ & Hreg & _ & Hobj).
  rewrite register_root_eq by done. rewrite fetchOrCreate_eq, Hobj, Hmeta.
  unfold rootInit. rewrite (alter_fixed _ _ _ _ Hheap (rootUpdate_idem _ _ _ _ _ _)).
  rewrite with_heap_same. unfold finishRoot, registerDeps.
  rewrite forEachParam_idle.
  - simpl. rewrite insert_id by done. by rewrite with_registry_same.
  - intros k Hk. rewrite (list_lookup_total_correct _ _ _ Hheap). simpl.
    apply Hfill. lia.
Qed.

(** A declaration at a site that already has a descriptor leaves the
    metadata store as it is. *)
Lemma register_keeps_metadata env i lc args s a :
  metadata s !! site args = Some a ->
  metadata (register env i lc args s).1 = metadata s.
Proof.
  unfold site. intros Hsite. rewrite register_eq.
  assert (Hfin : forall tgt r, metadata (finalSet tgt r).1 = metadata r.1).
  { intros tgt [s' [[b|]|e]]; reflexivity. }
  rewrite Hfin. destruct (targetTypeOf args).
  - rewrite registerConstructor_eq, fetchOrCreate_eq.
    destruct (isObject _); [|done]. rewrite Hsite.
    pose proof (finishRoot_grow env a (argTarget args) (argKey args)
                  (rootInit (ctorUpdate env i lc (argTarget args)) a s)) as [G _].
    by destruct G as (M & _).
  - rewrite registerProperty_eq, fetchOrCreate_eq.
    destruct (isObject _); [|done]. rewrite Hsite. simpl.
    unfold withProperty. by destruct (decide _).
  - destruct (argDescriptor args) as [|n|v acc].
    + unfold registerMethod. unfold bind at 1. rewrite fetchOrCreate_eq.
      destruct (isObject _); [|done]. by rewrite Hsite.
    + rewrite registerParamArm_eq, fetchOrCreate_eq.
      destruct (isObject _); [|done]. rewrite Hsite.
      pose proof (depsGrow_registerParam env
        (default VUndef (paramtypesOrEmpty env (argTarget args) (argKey args) !! n))
        n a lc i s) as (M & _).
      by destruct (registerParam _ _ _ _ _ _ _) as [s2 [[]|e]].
    + rewrite registerFactory_eq, fetchOrCreate_eq.
      destruct (isObject _); [|done]. rewrite Hsite.
      pose proof (finishRoot_grow env a (argTarget args) (argKey args)
                    (rootInit (factoryUpdate env i lc (argTarget args) (argKey args) v) a s))
        as [G _].
      by destruct G as (M & _).
  - done.
Qed.

(** The descriptor such a declaration puts in the registry is the one its
    site already had. *)
Lemma register_stores_site env i lc args s s1 a :
  metadata s !! site args = Some a ->
  storesDescriptor args = true ->
  register env i lc args s = (s1, Normal tt) ->
  registry s1 !! registryKey s1 a (argTarget args) = Some a.
Proof.
  unfold site, storesDescriptor. intros Hsite Hst. rewrite register_eq.
  destruct (targetTypeOf args); try discriminate.
  - rewrite registerConstructor_eq, fetchOrCreate_eq.
    destruct (isObject _); [|discriminate]. rewrite Hsite. unfold finishRoot.
    destruct (registerDeps _ _ _ _ _) as [s3 [[]|e]]; [|discriminate].
    simpl. intros [= <-]. simpl. by rewrite lookup_insert_eq.
  - rewrite registerProperty_eq, fetchOrCreate_eq.
    destruct (isObject _); [|discriminate]. rewrite Hsite.
    simpl. intros [= <-]. simpl. by rewrite lookup_insert_eq.
  - destruct (argDescriptor args) as [| |v acc]; try discriminate.
    rewrite registerFactory_eq, fetchOrCreate_eq.
    destruct (isObject _); [|discriminate]. rewrite Hsite. unfold finishRoot.
    destruct (registerDeps _ _ _ _ _) as [s3 [[]|e]]; [|discriminate].
    simpl. intros [= <-]. simpl. by rewrite lookup_insert_eq.
Qed.

(** ** Re-declaring a site *)

(** C6. In a state the program can reach: a declaration at a site that
    already has a descriptor fetches that descriptor back and stores no other
    one for the site (the metadata store is left as it is), and the
    descriptor it then writes to the registry is that same one; a class or
    factory declaration that completes, made a second time, changes nothing:
    no descriptor is created and the registry is the same; and the registry
    gives each identifier at most one descriptor, which exists. *)
Theorem redeclare_in_place env s :
  Declared env s ->
  (forall i lc args a,
     metadata s !! site args = Some a ->
     metadata (register env i lc args s).1 = metadata s /\
     (storesDescriptor args = true ->
      (register env i lc args s).2 = Normal tt ->
      registry (register env i lc args s).1
        !! registryKey (register env i lc args s).1 a (argTarget args) = Some a)) /\
  (forall i lc args s1,
     isRoot args = true ->
     register env i lc args s = (s1, Normal tt) ->
     (exists a, metadata s1 !! site args = Some a /\
        registry s1 !! registryKey s1 a (argTarget args) = Some a) /\
     register env i lc args s1 = (s1, Normal tt)) /\
  (forall k a b,
     registry s !! k = Some a -> registry s !! k = Some b ->
     a = b /\ a < length (heap s)).
Proof.
  intros Hd. pose proof (Declared_live _ _ Hd) as Hl. split; [|split].
  - intros i lc args a Hsite.
    split; [exact (register_keeps_metadata env i lc args s a Hsite)|].
    intros Hst Hok. destruct (register env i lc args s) as [s1 [[]|e]] eqn:E;
      simpl in *; [|discriminate].
    exact (register_stores_site env i lc args s s1 a Hsite Hst E).
  - intros i lc args s1 Hroot Hrun. split.
    + destruct (root_declared_facts _ _ _ _ _ _ Hl Hroot Hrun)
        as (a & m0 & ds & Ha & Hmeta & _ & _ & _ & _ & Hreg & _).
      exists a. rewrite site_root by done. done.
    + by apply (root_redeclared env i lc args s s1).
  - intros k a b Ha Hb. split; [congruence|]. by apply (proj2 Hl k).
Qed.

Lemma redeclare_in_place_witness :
  register envFoo (VStr "foo") None (Args1 cFoo) stFoo = (stFoo, Normal tt) /\
  length (heap stFoo) = 3.
Proof.
  split; [|vm_compute; reflexivity].
  refine (proj2 (proj1 (proj2 (redeclare_in_place envFoo initState (Declared_init _)))
            (VStr "foo") None (Args1 cFoo) stFoo _ _)); vm_compute; reflexivity.
Defined.

(** A property declaration also fetches the owner's descriptor back, but
    each one appends a child of its own: declared twice, the member [p] has
    two children. *)
Example property_redeclared_appends_child :
  let s1 := (register envBare (VStr "svc") None (Args2 pFoo (VStr "p")) initState).1 in
  let s2 := (register envBare (VStr "svc") None (Args2 pFoo (VStr "p")) s1).1 in
  metadata s1 !! (pFoo, VUndef) = Some 0 /\ metadata s2 !! (pFoo, VUndef) = Some 0 /\
  deps (heap s1 !!! 0) = [Some 1] /\ deps (heap s2 !!! 0) = [Some 1; Some 2].
Proof. vm_compute. do 3 (split; [reflexivity|]). reflexivity. Qed.

(** ** Declaring factories and filling parameter positions *)




(** What the code does with no identifier and the reflected return type
    [String]: the declaration completes and [String] itself is the
    identifier. *)
Example factory_with_primitive_return_type :
  isSimpleType (nameOf envMake (returntype envMake cFoo (VStr "make"))) = true /\
  (register envMake VUndef None (Args3 cFoo (VStr "make") (DObj fMake false)) initState).2
    = Normal tt /\
  registry (register envMake VUndef None
              (Args3 cFoo (VStr "make") (DObj fMake false)) initState).1 !! cString = Some 0.
Proof. vm_compute. repeat split; reflexivity. Qed.

(** C4, as the code has it. For a class or factory declaration in a state
    reached by declarations: when it completes, the site's descriptor has a
    child at every position of the reflected parameter types; when a position
    had no child and its reflected type is refused without an identifier, the
    declaration throws and the registry is left as it was. The graph
    registrar does not fail on a position without a child: it pops the hole
    and goes on, and the identifier list it hands to the container keeps the
    hole. *)
Theorem root_positions_filled env s i lc args :
  Declared env s ->
  isRoot args = true ->
  let tgt := argTarget args in
  let key := argKey args in
  let r := register env i lc args s in
  (r.2 = Normal tt ->
     exists a m, metadata r.1 !! (tgt, key) = Some a /\ heap r.1 !! a = Some m /\
       forall n, n < length (paramtypesOrEmpty env tgt key) ->
         is_Some (array_get (deps m) n)) /\
  (forall n p,
     paramtypesOrEmpty env tgt key !! n = Some p ->
     declaredAt s tgt key n = None ->
     paramAccepted env p VUndef = false ->
     exists e, r.2 = Throw e /\ registry r.1 = registry s) /\
  (forall h reg fuel rest c log,
     registerLoop env h reg (S fuel) (None :: rest) c log =
     registerLoop env h reg fuel rest c log) /\
  (forall h ds n, ds !! n = Some None -> depIds h ds !! n = Some None).
Proof.
  intros Hd Hroot tgt key r. pose proof (Declared_live _ _ Hd) as Hl.
  split; [|split; [|split]].
  - intros Hok. destruct r as [s1 c] eqn:E. simpl in Hok. subst c.
    destruct (root_declared_facts _ _ _ _ _ _ Hl Hroot E)
      as (a & m0 & ds & Ha & Hmeta & Hheap & _ & Hfill & _).
    exists a, (set_deps ds (rootUpdate env i lc args m0)). by repeat split.
  - intros n p Hp Hnone Hrej. destruct r as [s1 [[]|e]] eqn:E.
    + destruct (root_declared_facts _ _ _ _ _ _ Hl Hroot E)
        as (a & m0 & ds & _ & _ & _ & _ & _ & Himp & _).
      rewrite (Himp n p Hp Hnone) in Hrej. discriminate.
    + exists e. split; [done|]. by destruct (root_thrown _ _ _ _ _ _ _ Hroot E).
  - reflexivity.
  - intros h ds n Hn. unfold depIds. by rewrite list_lookup_fmap, Hn.
Qed.

Lemma root_positions_filled_witness :
  exists a m, metadata stFoo !! (cFoo, VUndef) = Some a /\ heap stFoo !! a = Some m /\
    forall n, n < 2 -> is_Some (array_get (deps m) n).
Proof.
  exact (proj1 (root_positions_filled envFoo initState (VStr "foo") None (Args1 cFoo)
                  (Declared_init _) eq_refl) eq_refl).
Defined.

(** C4 as stated fails: the descriptor of [Foo] has kind [TYPE] and no child
    at position 0; the traversal from [Bar] reaches it, completes, and
    registers it with a hole at position 0 of its identifier list. *)
Lemma gap_is_registered :
  registry stGap !! cFoo = Some 0 /\
  type (heap stGap !!! 0) = TYPE /\
  deps (heap stGap !!! 0) !! 0 = Some None /\
  metadata stGap !! (cBar, VUndef) = Some 3 /\
  rr_status (registerWithContainer envGap stGap (Some 3) (container stGap)) = Done /\
  exists k d,
    rr_container (registerWithContainer envGap stGap (Some 3) (container stGap)) = Some k /\
    getDep k VUndef = Some d /\
    dep_what d = RFactory (PConstruct 0 None) /\
    dep_ids d !! 0 = Some None.
Proof.
  vm_compute. do 5 (split; [reflexivity|]).
  eexists _, _. split; [reflexivity|]. split; [reflexivity|]. split; reflexivity.
Qed.

(** ** The graph registrar registers an identifier once *)

Lemma getDep_registerFactory k x p ids lc y :
  getDep (registerFactory k x p ids lc) y =
    if decide (x = y) then Some (mkDep x (RFactory p) ids lc) else getDep k y.
Proof. unfold getDep, registerFactory; simpl. apply lookup_insert. Qed.

Lemma getDep_registerInstance k x v ids lc y :
  getDep (registerInstance k x v ids lc) y =
    if decide (x = y) then Some (mkDep x (RInstance v) ids lc) else getDep k y.
Proof. unfold getDep, registerInstance; simpl. apply lookup_insert. Qed.

Lemma onceOnly_stop k log st : onceOnly k log (mkRegResult st (Some k) log).
Proof.
  exists k, []. simpl. rewrite app_nil_r. repeat split; try done.
  - constructor.
  - intros x Hx. by apply elem_of_nil in Hx.
  - intros x Hx. by apply elem_of_nil in Hx.
Qed.

Lemma onceOnly_step k k1 x log r :
  getDep k x = None ->
  (forall y, getDep k1 y = if decide (x = y) then getDep k1 x else getDep k y) ->
  is_Some (getDep k1 x) ->
  onceOnly k1 (log ++ [x]) r ->
  onceOnly k log r.
Proof.
  intros Hx Hk1 Hreg (k' & new & Hc & Hlog & Hnd & Hfresh & Hkeep & Hin).
  exists k', (x :: new). split; [done|]. split; [by rewrite Hlog, <- app_assoc|].
  split; [|split; [|split]].
  - constructor; [|done]. intros Hmem. specialize (Hfresh _ Hmem).
    destruct Hreg as [d Hd]. congruence.
  - intros y [->|Hy]%elem_of_cons; [done|].
    specialize (Hfresh _ Hy). rewrite Hk1 in Hfresh.
    destruct (decide (x = y)) as [->|Hne]; [|done].
    destruct Hreg as [d Hd]. congruence.
  - intros y d Hy. apply Hkeep. rewrite Hk1.
    destruct (decide (x = y)) as [->|Hne]; [congruence|done].
  - intros y [->|Hy]%elem_of_cons; [|by apply Hin].
    destruct Hreg as [d Hd]. rewrite (Hkeep _ _ Hd). eauto.
Qed.

Lemma registerLoop_onceOnly env h reg fuel : forall stack k log,
  onceOnly k log (registerLoop env h reg fuel stack (Some k) log).
Proof.
  induction fuel as [|fuel IH]; intros stack k log; simpl; [apply onceOnly_stop|].
  destruct stack as [|[r|] rest]; [apply onceOnly_stop| |apply IH].
  destruct (reg !! id (h !!! r)) as [d|]; [|apply IH].
  destruct (getDep k (id (h !!! d))) as [old|] eqn:Hget; [apply IH|].
  destruct (type (h !!! d)) eqn:Hty.
  - destruct (getPrototype env (target (h !!! d))) as [proto|]; [|apply onceOnly_stop].
    eapply onceOnly_step; [exact Hget| | |apply IH].
    + intros y. rewrite !getDep_registerFactory.
      destruct (decide (id (h !!! d) = y)); [by rewrite decide_True|done].
    + rewrite getDep_registerFactory, decide_True by done. eauto.
  - eapply onceOnly_step; [exact Hget| | |apply IH].
    + intros y. rewrite !getDep_registerFactory.
      destruct (decide (id (h !!! d) = y)); [by rewrite decide_True|done].
    + rewrite getDep_registerFactory, decide_True by done. eauto.
  - eapply onceOnly_step; [exact Hget| | |apply IH].
    + intros y. rewrite !getDep_registerInstance.
      destruct (decide (id (h !!! d) = y)); [by rewrite decide_True|done].
    + rewrite getDep_registerInstance, decide_True by done. eauto.
  - apply onceOnly_stop.
Qed.

(** ** The traversal ends *)

Lemma maxDeps_bound h : forall d, length (deps (h !!! d)) <= maxDeps h.
Proof.
  induction h as [|m h IH]; intros d; simpl.
  - by destruct d.
  - destruct d as [|d]; [simpl; lia|].
    specialize (IH d). rewrite list_lookup_total_alt in *. simpl in *. lia.
Qed.

Lemma id_in_allIds h d : id (h !!! d) ∈ allIds h.
Proof.
  unfold allIds. destruct (h !! d) as [m|] eqn:E.
  - rewrite (list_lookup_total_correct _ _ _ E).
    apply elem_of_union_r, elem_of_list_to_set, list_elem_of_fmap.
    exists m. split; [done|]. by eapply list_elem_of_lookup_2.
  - rewrite list_lookup_total_alt, E. simpl. by apply elem_of_union_l, elem_of_singleton.
Qed.

Lemma pending_insert h k x d :
  x ∈ allIds h -> opium_registry k !! x = None ->
  size (allIds h ∖ dom (<[x := d]> (opium_registry k))) <
  size (allIds h ∖ dom (opium_registry k)).
Proof.
  intros Hin Hnone. apply subset_size. rewrite dom_insert_L.
  apply not_elem_of_dom in Hnone. split.
  - intros y [Hy1 Hy2]%elem_of_difference. apply elem_of_difference.
    split; [done|]. intros Hd. by apply Hy2, elem_of_union_r.
  - intros Hsub. assert (Hx : x ∈ allIds h ∖ dom (opium_registry k))
      by (by apply elem_of_difference).
    apply Hsub, elem_of_difference in Hx as [_ Hx].
    by apply Hx, elem_of_union_l, elem_of_singleton.
Qed.

Lemma length_pushAll {A} (xs st : list A) : length (pushAll xs st) = length xs + length st.
Proof. unfold pushAll. by rewrite length_app, length_rev. Qed.

Lemma registerLoop_total env h reg fuel : forall stack c log,
  length stack + (2 * maxDeps h + 2) * pending h c < fuel ->
  rr_status (registerLoop env h reg fuel stack c log) <> OutOfFuel.
Proof.
  induction fuel as [|fuel IH]; intros stack c log Hfuel; [lia|]. simpl.
  destruct stack as [|[r|] rest]; [done| |apply IH; simpl in Hfuel; lia].
  simpl in Hfuel.
  destruct (reg !! id (h !!! r)) as [d|]; [|apply IH; lia].
  destruct c as [k|]; [|done].
  destruct (getDep k (id (h !!! d))) as [old|] eqn:Hget; [apply IH; lia|].
  pose proof (maxDeps_bound h d) as Hd.
  assert (Hp : forall dep', S (size (allIds h ∖ dom (<[id (h !!! d) := dep']> (opium_registry k))))
                  <= pending h (Some k)).
  { intros dep'. simpl.
    pose proof (pending_insert h k (id (h !!! d)) dep' (id_in_allIds h d) Hget). lia. }
  destruct (type (h !!! d)) eqn:Hty.
  - destruct (getPrototype env (target (h !!! d))) as [proto|]; [|done].
    apply IH. specialize (Hp (mkDep (id (h !!! d)) (RFactory (PConstruct d (reg !! proto)))
                               (depIds h (deps (h !!! d))) (lifeCycle (h !!! d)))).
    simpl in *.
    assert (length (match reg !! proto with
                    | Some pm => pushAll (deps (h !!! pm)) (pushAll (deps (h !!! d)) rest)
                    | None => pushAll (deps (h !!! d)) rest
                    end) <= 2 * maxDeps h + length rest) as Hlen.
    { destruct (reg !! proto) as [pm|]; rewrite !length_pushAll; [|lia].
      pose proof (maxDeps_bound h pm). lia. }
    nia.
  - apply IH. specialize (Hp (mkDep (id (h !!! d)) (RFactory (PTarget (target (h !!! d))))
                               (depIds h (deps (h !!! d))) (lifeCycle (h !!! d)))).
    simpl in *. rewrite length_pushAll. nia.
  - apply IH. specialize (Hp (mkDep (id (h !!! d)) (RInstance (target (h !!! d)))
                               (depIds h (deps (h !!! d))) (lifeCycle (h !!! d)))).
    simpl in *. rewrite length_pushAll. nia.
  - done.
Qed.

Lemma registerWithContainer_total env s root c :
  rr_status (registerWithContainer env s root c) <> OutOfFuel.
Proof.
  unfold registerWithContainer, fuelFor. apply registerLoop_total. simpl. lia.
Qed.

(** C2. One traversal of the graph registrar over a container [k] ends, and
    the identifiers it registered, in the order of its calls to
    [registerFactory] and [registerInstance], are pairwise distinct and were
    all absent from [k]: an identifier [k] already had is skipped, its
    registration is the same afterwards, and no identifier is registered
    twice, whatever the shape of the dependency graph. *)
Theorem registered_once env s root k :
  rr_status (registerWithContainer env s root (Some k)) <> OutOfFuel /\
  NoDup (rr_log (registerWithContainer env s root (Some k))) /\
  (forall x, x ∈ rr_log (registerWithContainer env s root (Some k)) -> getDep k x = None) /\
  exists k',
    rr_container (registerWithContainer env s root (Some k)) = Some k' /\
    (forall x d, getDep k x = Some d -> getDep k' x = Some d) /\
    (forall x, x ∈ rr_log (registerWithContainer env s root (Some k)) -> is_Some (getDep k' x)).
Proof.
  split; [apply registerWithContainer_total|].
  destruct (registerLoop_onceOnly env (heap s) (registry s)
              (fuelFor (heap s) [root] (Some k)) [root] k [])
    as (k' & new & Hc & Hlog & Hnd & Hfresh & Hkeep & Hin).
  unfold registerWithContainer. rewrite Hlog. simpl.
  split; [done|]. split; [done|]. exists k'. by repeat split.
Qed.

Example diamond_registers_shared_once :
  metadata stDiamond !! (cA, VUndef) = Some 5 /\
  let r := registerWithContainer envDiamond stDiamond (Some 5) (Some (newOpium None None)) in
  rr_status r = Done /\ rr_log r = [cA; cBar; cFoo; cB].
Proof. vm_compute. repeat split; reflexivity. Qed.

(** ** The session-bound lookup *)

Lemma registerLoop_null env h reg fuel : forall stack log,
  rr_container (registerLoop env h reg fuel stack None log) = None /\
  rr_log (registerLoop env h reg fuel stack None log) = log /\
  (rr_status (registerLoop env h reg fuel stack None log) = Done \/
   rr_status (registerLoop env h reg fuel stack None log) = OutOfFuel \/
   exists what, rr_status (registerLoop env h reg fuel stack None log) = Threw (TypeError what)).
Proof.
  induction fuel as [|fuel IH]; intros stack log; simpl; [by auto|].
  destruct stack as [|[r|] rest]; [by auto| |apply IH].
  destruct (reg !! id (h !!! r)); [|apply IH].
  simpl. repeat split; eauto.
Qed.

(** What [getInjectable] returns when it returns. *)
Lemma getInjectable_normal env tgt key s s' h :
  getInjectable env tgt key s = (s', Normal h) ->
  exists a k k',
    isObject tgt = true /\
    metadata s !! (tgt, key) = Some a /\ container s = Some k /\
    rr_status (registerWithContainer env s (Some a) (Some k)) = Done /\
    rr_container (registerWithContainer env s (Some a) (Some k)) = Some k' /\
    h = getDep k' (id (heap s !!! a)) /\
    s' = with_container None s.
Proof.
  unfold getInjectable, bind, getMetadata.
  destruct (isObject tgt); [|discriminate].
  set (r := registerWithContainer env s (metadata s !! (tgt, key)) (container s)).
  destruct (rr_status r) eqn:Hst; try discriminate.
  destruct (rr_container r) as [k'|] eqn:Hc; [|discriminate].
  destruct (metadata s !! (tgt, key)) as [a|] eqn:Hm; [|discriminate].
  simpl. intros [= <- <-].
  destruct (container s) as [k|] eqn:Hk.
  - exists a, k, k'. subst r. by repeat split.
  - subst r. unfold registerWithContainer in Hc.
    destruct (registerLoop_null env (heap s) (registry s)
                (fuelFor (heap s) [Some a] None) [Some a] []) as [Hnone _].
    congruence.
Qed.

(** The lookup touches nothing but the container pointer, so the states it
    leaves are reachable ones. *)
Lemma getInjectable_frame env tgt key s :
  heap (getInjectable env tgt key s).1 = heap s /\
  metadata (getInjectable env tgt key s).1 = metadata s /\
  registry (getInjectable env tgt key s).1 = registry s.
Proof.
  unfold getInjectable, bind, getMetadata. destruct (isObject tgt); [|done].
  destruct (rr_status _); try done.
  destruct (rr_container _); [|done]. by destruct (metadata s !! (tgt, key)).
Qed.

Lemma Declared_getInjectable env tgt key s :
  Declared env s -> Declared env (getInjectable env tgt key s).1.
Proof.
  intros Hd. destruct (getInjectable_frame env tgt key s) as (Hh & Hm & Hr).
  by eapply Declared_session.
Qed.

(** C8. The session-bound lookup [getInjectable(target, key)], when it
    returns: the traversal from the site's descriptor ended, the handle is
    what the container it left answers for that descriptor's identifier, and
    the current-container pointer is [null] afterwards, nothing else of the
    state having changed. It does return whenever the target is an object
    with a descriptor, a session is open and the traversal completes; and the
    traversal never runs on for ever. *)
Theorem lookup_clears_container env tgt key s :
  (forall s' h,
     getInjectable env tgt key s = (s', Normal h) ->
     container s' = None /\ s' = with_container None s /\
     exists a k k',
       metadata s !! (tgt, key) = Some a /\ container s = Some k /\
       rr_container (registerWithContainer env s (Some a) (Some k)) = Some k' /\
       h = getDep k' (id (heap s !!! a))) /\
  (forall a k,
     isObject tgt = true -> metadata s !! (tgt, key) = Some a -> container s = Some k ->
     rr_status (registerWithContainer env s (Some a) (Some k)) = Done ->
     exists h, getInjectable env tgt key s = (with_container None s, Normal h)) /\
  rr_status (registerWithContainer env s (metadata s !! (tgt, key)) (container s)) <> OutOfFuel.
Proof.
  split; [|split; [|apply registerWithContainer_total]].
  - intros s' h Hrun.
    destruct (getInjectable_normal _ _ _ _ _ _ Hrun)
      as (a & k & k' & _ & Hm & Hk & _ & Hc & -> & ->).
    split; [done|]. split; [done|]. by exists a, k, k'.
  - intros a k Hobj Hm Hk Hdone.
    destruct (registerLoop_onceOnly env (heap s) (registry s)
                (fuelFor (heap s) [Some a] (Some k)) [Some a] k []) as (k' & _ & Hc & _).
    fold (registerWithContainer env s (Some a) (Some k)) in Hc.
    exists (getDep k' (id (heap s !!! a))).
    unfold getInjectable, bind, getMetadata. rewrite Hobj, Hm, Hk, Hdone, Hc.
    simpl. by destruct s.
Qed.

(** The session of the gap example: the lookup of [Bar] returns its handle
    and clears the pointer. *)
Lemma lookup_clears_container_witness :
  container stGap = Some (newOpium None None) /\
  exists h, getInjectable envGap cBar VUndef stGap = (with_container None stGap, Normal h).
Proof.
  split; [reflexivity|].
  refine (proj1 (proj2 (lookup_clears_container envGap cBar VUndef stGap))
            3 (newOpium None None) _ _ _ _); reflexivity.
Defined.

Lemma getInjectable_null env tgt key s :
  container s = None ->
  exists what, (getInjectable env tgt key s).2 = Throw (TypeError what).
Proof.
  intros Hnull. unfold getInjectable, bind, getMetadata.
  destruct (isObject tgt); [|by eexists].
  rewrite Hnull.
  pose proof (registerWithContainer_total env s (metadata s !! (tgt, key)) None) as Htot.
  destruct (registerLoop_null env (heap s) (registry s)
              (fuelFor (heap s) [metadata s !! (tgt, key)] None)
              [metadata s !! (tgt, key)] []) as (Hc & _ & Hst).
  fold (registerWithContainer env s (metadata s !! (tgt, key)) None) in Hc, Hst.
  destruct Hst as [Hst|[Hst|[what Hst]]]; rewrite Hst; [|by rewrite Hst in Htot|by eexists].
  rewrite Hc. by eexists.
Qed.

(** C9. After the session-bound lookup has returned once, a second call,
    for any target and key, with no new session begun in between, returns no
    handle: it throws a [TypeError], the current container being [null]. The
    same holds in any state whose container pointer is [null]. *)
Theorem second_lookup_fails env tgt key s s1 h tgt2 key2 :
  getInjectable env tgt key s = (s1, Normal h) ->
  container s1 = None /\
  exists what, (getInjectable env tgt2 key2 s1).2 = Throw (TypeError what).
Proof.
  intros Hrun.
  destruct (getInjectable_normal _ _ _ _ _ _ Hrun) as (a & k & k' & _ & _ & _ & _ & _ & _ & ->).
  split; [reflexivity|]. by apply getInjectable_null.
Qed.

Lemma second_lookup_fails_witness :
  container (getInjectable envGap cBar VUndef stGap).1 = None /\
  exists what,
    (getInjectable envGap cBar VUndef (getInjectable envGap cBar VUndef stGap).1).2
      = Throw (TypeError what).
Proof.
  refine (second_lookup_fails envGap cBar VUndef stGap
            (getInjectable envGap cBar VUndef stGap).1
            match (getInjectable envGap cBar VUndef stGap).2 with
            | Normal h => h
            | Throw _ => None
            end cBar VUndef _).
  reflexivity.
Defined.

(** ** The implicit-injection trigger *)



(** ** The producer of a [TYPE] descriptor *)

(** When [Promise.all] is fulfilled: the trace gained one assignment per
    settled callback and then the return, and the object returned is the
    one those assignments produce. *)
Lemma settle_normal rt h c props order : forall res trace out inst,
  settle rt h c props order res trace = (out, Normal inst) ->
  exists assigns,
    out = trace ++ assigns ++ [EReturn] /\ Forall isAssign assigns /\
    inst = applyTrace assigns res /\
    forall n a, n ∈ order -> props !! n = Some (Some a) ->
      exists v, propCallback rt c (h !!! a) = Normal v /\
                EAssign (metaKey (h !!! a)) v ∈ assigns.
Proof.
  induction order as [|i order IH]; intros res trace out inst Hrun; simpl in Hrun.
  - injection Hrun as <- <-. exists []. repeat split; try done.
    intros n a Hn. by apply elem_of_nil in Hn.
  - destruct (props !! i) as [[a|]|] eqn:Hi.
    + destruct (propCallback rt c (h !!! a)) as [v|e] eqn:Hcb; [|discriminate].
      destruct (IH _ _ _ _ Hrun) as (assigns & -> & Hall & -> & Hin).
      exists (EAssign (metaKey (h !!! a)) v :: assigns).
      split; [by rewrite <- app_assoc|]. split; [by constructor|]. split; [done|].
      intros n b Hn Hb. apply elem_of_cons in Hn as [->|Hn].
      * rewrite Hi in Hb. injection Hb as <-. exists v. split; [done|by left].
      * destruct (Hin n b Hn Hb) as (w & Hw & Hmem). exists w. split; [done|by right].
    + destruct (IH _ _ _ _ Hrun) as (assigns & -> & Hall & -> & Hin).
      exists assigns. repeat split; try done.
      intros n b Hn Hb. apply elem_of_cons in Hn as [->|Hn]; [congruence|exact (Hin n b Hn Hb)].
    + destruct (IH _ _ _ _ Hrun) as (assigns & -> & Hall & -> & Hin).
      exists assigns. repeat split; try done.
      intros n b Hn Hb. apply elem_of_cons in Hn as [->|Hn]; [congruence|exact (Hin n b Hn Hb)].
Qed.

(** When one callback is rejected, [Promise.all] is rejected whatever the
    order in which the callbacks settle. *)
Lemma settle_rejected rt h c props order : forall res trace n a e,
  n ∈ order -> props !! n = Some (Some a) ->
  propCallback rt c (h !!! a) = Throw e ->
  exists e', (settle rt h c props order res trace).2 = Throw e'.
Proof.
  induction order as [|i order IH]; intros res trace n a e Hn Ha He; simpl.
  - by apply elem_of_nil in Hn.
  - destruct (props !! i) as [[b|]|] eqn:Hi.
    + destruct (propCallback rt c (h !!! b)) as [v|e1] eqn:Hcb; [|by exists e1].
      apply elem_of_cons in Hn as [->|Hn]; [congruence|]. by eapply IH.
    + apply elem_of_cons in Hn as [->|Hn]; [congruence|]. by eapply IH.
    + apply elem_of_cons in Hn as [->|Hn]; [congruence|]. by eapply IH.
Qed.

(** A rejected [Promise.all] leaves a trace that ends in the rejection and
    has no return. *)
Lemma settle_throw rt h c props order : forall res trace out e,
  settle rt h c props order res trace = (out, Throw e) ->
  exists assigns, out = trace ++ assigns ++ [EReject e] /\ Forall isAssign assigns.
Proof.
  induction order as [|i order IH]; intros res trace out e Hrun; simpl in Hrun; [discriminate|].
  destruct (props !! i) as [[a|]|] eqn:Hi; try by eapply IH.
  destruct (propCallback rt c (h !!! a)) as [v|e1] eqn:Hcb.
  - destruct (IH _ _ _ _ Hrun) as (assigns & -> & Hall).
    exists (EAssign (metaKey (h !!! a)) v :: assigns).
    split; [by rewrite <- app_assoc|by constructor].
  - injection Hrun as <- <-. by exists [].
Qed.

Lemma isAssign_not_return l : Forall isAssign l -> EReturn ∉ l.
Proof.
  intros Hall Hin. rewrite Forall_forall in Hall. exact (Hall _ Hin).
Qed.

(** The [TYPE] arm: the descriptor [d] found for the popped reference, not
    yet in the container, is registered with the closure over [d] and over
    the property owner the registry holds for [d.target.prototype]. *)
Lemma type_arm_registers_producer env h reg fuel r rest k log d proto :
  reg !! id (h !!! r) = Some d ->
  getDep k (id (h !!! d)) = None ->
  type (h !!! d) = TYPE ->
  getPrototype env (target (h !!! d)) = Some proto ->
  registerLoop env h reg (S fuel) (Some r :: rest) (Some k) log =
    registerLoop env h reg fuel
      (match reg !! proto with
       | Some pm => pushAll (deps (h !!! pm)) (pushAll (deps (h !!! d)) rest)
       | None => pushAll (deps (h !!! d)) rest
       end)
      (Some (registerFactory k (id (h !!! d)) (PConstruct d (reg !! proto))
               (depIds h (deps (h !!! d))) (lifeCycle (h !!! d))))
      (log ++ [id (h !!! d)]).
Proof. intros Hreg Hget Hty Hproto. simpl. by rewrite Hreg, Hget, Hty, Hproto. Qed.

(** C1. The producer registered for a [TYPE] descriptor whose prototype has
    a property owner [pm], under any order in which the property callbacks
    settle: when it returns an instance, the constructor call had succeeded,
    every property child was resolved and its value assigned under the
    child's [metaKey] before the return (the return is the last event), and
    the instance is the constructed object with those assignments applied;
    when the resolution of any one property child fails, the producer is
    rejected and returns no instance. *)
Theorem type_producer_all_or_nothing rt h c dep pm args order :
  order ≡ₚ seq 0 (length (deps (h !!! pm))) ->
  let props := deps (h !!! pm) in
  let out := typeProducer rt h c dep (Some pm) args order in
  (forall inst, out.2 = Normal inst ->
     exists res0 assigns,
       construct rt (target (h !!! dep)) args = Normal res0 /\
       out.1 = assigns ++ [EReturn] /\ Forall isAssign assigns /\
       inst = applyTrace assigns res0 /\
       forall n a, props !! n = Some (Some a) ->
         exists v, propCallback rt c (h !!! a) = Normal v /\
                   EAssign (metaKey (h !!! a)) v ∈ assigns) /\
  (forall n a e, props !! n = Some (Some a) ->
     propCallback rt c (h !!! a) = Throw e ->
     exists e', out.2 = Throw e' /\ EReturn ∉ out.1).
Proof.
  intros Hperm props out.
  assert (Hall : forall n a, props !! n = Some (Some a) -> n ∈ order).
  { intros n a Hn. rewrite Hperm. apply elem_of_seq.
    apply lookup_lt_Some in Hn. fold props. lia. }
  subst out. unfold typeProducer.
  destruct (construct rt (target (h !!! dep)) args) as [res0|e0] eqn:Hc; simpl.
  - fold props. split.
    + intros inst Hout.
      destruct (settle rt h c props order res0 []) as [tr r] eqn:Hrun. simpl in Hout. subst r.
      destruct (settle_normal _ _ _ _ _ _ _ _ _ Hrun) as (assigns & -> & Hassign & -> & Hin).
      exists res0, assigns. repeat split; try done.
      intros n a Hn. exact (Hin n a (Hall n a Hn) Hn).
    + intros n a e Hn He.
      destruct (settle_rejected rt h c props order res0 [] n a e (Hall n a Hn) Hn He) as [e' He'].
      exists e'. split; [done|].
      destruct (settle rt h c props order res0 []) as [tr r] eqn:Hrun. simpl in He'. subst r.
      destruct (settle_throw _ _ _ _ _ _ _ _ _ Hrun) as (assigns & -> & Hassign). simpl.
      intros [Hin|Hin]%elem_of_app; [by apply (isAssign_not_return assigns)|].
      by apply list_elem_of_singleton in Hin.
  - split; [discriminate|]. intros n a e Hn He. exists e0. split; [done|].
    by intros [=]%list_elem_of_singleton.
Qed.

Example producer_of_Foo :
  dep_what <$> getDep kProp (VStr "foo") = Some (RFactory (PConstruct 2 (Some 0))) /\
  deps (heap stProp !!! 0) = [Some 1] /\
  (typeProducer rtOk (heap stProp) kProp 2 (Some 0) [] [0]).1
    = [EAssign (VStr "p") (VStr "service"); EReturn] /\
  (match (typeProducer rtOk (heap stProp) kProp 2 (Some 0) [] [0]).2 with
   | Normal inst => inst !! VStr "p"
   | Throw _ => None
   end) = Some (VStr "service").
Proof. vm_compute. repeat split; reflexivity. Qed.

Lemma type_producer_all_or_nothing_witness :
  exists res0 assigns,
    construct rtOk (target (heap stProp !!! 2)) [] = Normal res0 /\
    (typeProducer rtOk (heap stProp) kProp 2 (Some 0) [] [0]).1 = assigns ++ [EReturn] /\
    Forall isAssign assigns /\
    <[VStr "p" := VStr "service"]> (∅ : Obj) = applyTrace assigns res0 /\
    forall n a, deps (heap stProp !!! 0) !! n = Some (Some a) ->
      exists v, propCallback rtOk kProp (heap stProp !!! a) = Normal v /\
                EAssign (metaKey (heap stProp !!! a)) v ∈ assigns.
Proof.
  refine (proj1 (type_producer_all_or_nothing rtOk (heap stProp) kProp 2 0 [] [0] _)
            (<[VStr "p" := VStr "service"]> (∅ : Obj)) _).
  - reflexivity.
  - reflexivity.
Defined.

(** * Further properties of the declarations, the registrar and the session *)

(** ** Children of a declaration *)

Lemma declaredAt_siteDeps s tgt key n :
  declaredAt s tgt key n = array_get (siteDeps s tgt key) n.
Proof. unfold declaredAt, siteDeps. by destruct (metadata s !! (tgt, key)). Qed.

(** Whatever [fetchOrCreate] returns, the descriptor it hands over has the
    [deps] and the lifecycle the site had. *)
Lemma fetchOrCreate_site tgt key s s0 a :
  live s -> fetchOrCreate tgt key s = (s0, Normal a) ->
  deps (heap s0 !!! a) = siteDeps s tgt key /\
  lifeCycle (heap s0 !!! a) = siteLifeCycle s tgt key /\
  (forall b m, heap s !! b = Some m -> b <> a \/ metadata s !! (tgt, key) = Some a ->
     heap s0 !! b = Some m).
Proof.
  intros Hl. rewrite fetchOrCreate_eq. unfold siteDeps, siteLifeCycle.
  destruct (isObject tgt); [|discriminate].
  destruct (metadata s !! (tgt, key)) as [b|] eqn:E; intros [= <- <-]; [done|].
  simpl. rewrite list_lookup_total_alter_eq by (rewrite length_app; simpl; lia).
  rewrite lookup_total_app_r by lia. rewrite Nat.sub_diag. repeat split; try done.
  intros b m Hb [Hne|?]; [|discriminate].
  rewrite list_lookup_alter_ne by done. by apply lookup_app_l_Some.
Qed.

(** The [forEach] of [registerDeps] never replaces an entry. *)
Lemma forEachParam_keeps env a ps : forall n s s' r,
  a < length (heap s) ->
  forEachParam env a ps n s = (s', r) ->
  forall k c, array_get (deps (heap s !!! a)) k = Some c ->
    array_get (deps (heap s' !!! a)) k = Some c.
Proof.
  induction ps as [|q ps IH]; intros n s s' r Ha Hrun k c Hk; simpl in Hrun.
  - by injection Hrun as <- <-.
  - unfold bind, readMeta at 1 in Hrun.
    destruct (array_get (deps (heap s !!! a)) n) as [d|] eqn:E; simpl in Hrun.
    + exact (IH (S n) s s' r Ha Hrun k c Hk).
    + rewrite registerParam_eq in Hrun.
      destruct (paramAccepted env q VUndef); [|by injection Hrun as <- <-].
      pose proof (depsGrow_withChild VUndef q n a s) as (_ & _ & _ & _ & L & _ & _).
      apply (IH (S n) (withChild VUndef q n a s) s' r ltac:(lia) Hrun k c).
      rewrite withChild_deps by done. rewrite array_get_set_other; [done|].
      intros ->. congruence.
Qed.

(** At an index that had no entry, a [forEach] that completes has put a
    new descriptor whose identifier is the reflected type. *)
Lemma forEachParam_new env a ps : forall n s s',
  a < length (heap s) ->
  forEachParam env a ps n s = (s', Normal tt) ->
  forall k p, ps !! k = Some p ->
    array_get (deps (heap s !!! a)) (n + k) = None ->
    exists c, array_get (deps (heap s' !!! a)) (n + k) = Some c /\
      length (heap s) <= c /\ heap s' !! c = Some (set_id p newMeta).
Proof.
  induction ps as [|q ps IH]; intros n s s' Ha Hrun k p Hk Hnone; simpl in *; [done|].
  unfold bind, readMeta at 1 in Hrun.
  destruct (array_get (deps (heap s !!! a)) n) as [d|] eqn:E; simpl in Hrun.
  - destruct k as [|k]; simpl in Hk.
    + rewrite Nat.add_0_r in Hnone. congruence.
    + replace (n + S k) with (S n + k) in * by lia.
      exact (IH (S n) s s' Ha Hrun k p Hk Hnone).
  - rewrite registerParam_eq in Hrun.
    destruct (paramAccepted env q VUndef) eqn:Hacc; [|discriminate].
    pose proof (depsGrow_withChild VUndef q n a s) as (_ & _ & _ & _ & L & _ & _).
    assert (Haw : a < length (heap (withChild VUndef q n a s))) by lia.
    destruct k as [|k]; simpl in Hk.
    + injection Hk as ->. rewrite Nat.add_0_r.
      exists (length (heap s)). split; [|split; [lia|]].
      * apply (forEachParam_keeps env a ps (S n) _ s' _ Haw Hrun).
        rewrite withChild_deps by done. apply array_get_set_eq.
      * pose proof (depsGrow_forEachParam env a ps (S n) (withChild VUndef p n a s)) as G.
        rewrite Hrun in G. destruct G as (_ & _ & _ & _ & _ & O & _). simpl in O.
        rewrite O; [|rewrite !length_alter, length_app; simpl; lia|lia].
        destruct (withChild_child VUndef p n a s Ha) as [_ Hc]. exact Hc.
    + replace (n + S k) with (S n + k) in * by lia.
      destruct (IH (S n) (withChild VUndef q n a s) s' Haw Hrun k p Hk) as (c & Hc & Hlen & Hcell).
      { rewrite withChild_deps by done. rewrite array_get_set_other by lia. done. }
      exists c. split; [done|]. split; [lia|done].
Qed.

Lemma rootUpdate_fields env i lc args m :
  id (rootUpdate env i lc args m) = id (rootUpdate env i lc args newMeta) /\
  type (rootUpdate env i lc args m) = type (rootUpdate env i lc args newMeta) /\
  target (rootUpdate env i lc args m) = target (rootUpdate env i lc args newMeta) /\
  lifeCycle (rootUpdate env i lc args m) = lcOr env lc (lifeCycle m).
Proof. unfold rootUpdate. by destruct (targetTypeOf args), (argDescriptor args). Qed.

(** A class or factory declaration that completes, seen from its site: the
    fields of the site's descriptor, the children it kept and the children it
    created. *)
Lemma root_children env i lc args s s1 :
  live s ->
  isRoot args = true ->
  register env i lc args s = (s1, Normal tt) ->
  let tgt := argTarget args in
  let key := argKey args in
  exists a m,
    metadata s1 !! (tgt, key) = Some a /\ heap s1 !! a = Some m /\
    id m = id (rootUpdate env i lc args newMeta) /\
    type m = type (rootUpdate env i lc args newMeta) /\
    target m = target (rootUpdate env i lc args newMeta) /\
    lifeCycle m = lcOr env lc (siteLifeCycle s tgt key) /\
    (forall n c, declaredAt s tgt key n = Some c ->
       array_get (deps m) n = Some c /\
       (c <> a -> forall mc, heap s !! c = Some mc -> heap s1 !! c = Some mc)) /\
    (forall n p, paramtypesOrEmpty env tgt key !! n = Some p ->
       declaredAt s tgt key n = None ->
       exists c, array_get (deps m) n = Some c /\ c <> a /\
         heap s1 !! c = Some (set_id p newMeta)).
Proof.
  intros Hl Hroot Hrun tgt key.
  destruct (root_declared _ _ _ _ _ _ Hroot Hrun) as (a & s0 & s2 & F & E & ->).
  fold tgt key in F, E.
  destruct (fetchOrCreate_live _ _ _ _ _ Hl F) as (Hl0 & Ha & Hm0 & Hobj & Hr0 & L0).
  destruct (fetchOrCreate_site _ _ _ _ _ Hl F) as (Hdeps0 & Hlc0 & Hcells0).
  remember (rootInit (rootUpdate env i lc args) a s0) as si eqn:Hdef.
  assert (Hlsi : length (heap si) = length (heap s0))
    by (subst si; simpl; by rewrite length_alter).
  assert (Hmsi : metadata si = metadata s0) by (by subst si).
  assert (Hai : a < length (heap si)) by lia.
  assert (Hsi : heap si !!! a = rootUpdate env i lc args (heap s0 !!! a)).
  { subst si. simpl. by rewrite list_lookup_total_alter_eq. }
  assert (Hoth : forall c, c <> a -> heap si !! c = heap s0 !! c).
  { intros c Hne. subst si. simpl. by rewrite list_lookup_alter_ne. }
  pose proof (depsGrow_forEachParam env a (paramtypesOrEmpty env tgt key) 0 si) as G.
  rewrite E in G. destruct G as (M & R & _ & _ & L & O & S). simpl in M, R, L, O.
  destruct (S Hai) as (ds & Eds & _). simpl in Eds.
  assert (Ha2 : a < length (heap s2)) by lia.
  exists a, (heap s2 !!! a). simpl.
  split; [by rewrite M, Hmsi|]. split; [by apply list_lookup_lookup_total_lt|].
  destruct (rootUpdate_fields env i lc args (heap s0 !!! a)) as (Fi & Ft & Fg & Fl).
  rewrite Eds at 1 2 3 4. rewrite Hsi. simpl.
  split; [done|]. split; [done|]. split; [done|]. split; [by rewrite Fl, Hlc0|].
  split.
  - intros n c Hn. rewrite declaredAt_siteDeps, <- Hdeps0 in Hn. split.
    + apply (forEachParam_keeps env a _ 0 si s2 _ Hai E).
      by rewrite Hsi, rootUpdate_deps.
    + intros Hne mc Hc.
      assert (Hc0 : heap s0 !! c = Some mc) by (apply Hcells0; [done|by left]).
      rewrite O; [|rewrite Hlsi; by eapply lookup_lt_Some|done].
      by rewrite Hoth.
  - intros n p Hp Hn. rewrite declaredAt_siteDeps, <- Hdeps0 in Hn.
    destruct (forEachParam_new env a _ 0 si s2 Hai E n p Hp) as (c & Hc & Hlen & Hcell).
    { by rewrite Hsi, rootUpdate_deps. }
    exists c. split; [done|]. split; [|done].
    lia.
Qed.

Lemma array_get_Some {A} (l : list (option A)) n c :
  array_get l n = Some c <-> l !! n = Some (Some c).
Proof.
  unfold array_get. destruct (l !! n) as [[x|]|]; simpl; split; intros H; by simplify_eq.
Qed.

Lemma depIds_lookup h ds n c :
  array_get ds n = Some c -> depIds h ds !! n = Some (Some (id (h !!! c))).
Proof.
  intros H%array_get_Some. unfold depIds. by rewrite list_lookup_fmap, H.
Qed.

(** A parameter declaration that completes, seen from its site. *)
Lemma param_declared env i lc tgt key n s s1 :
  live s ->
  register env i lc (Args3 tgt key (DNum n)) s = (s1, Normal tt) ->
  exists a p c,
    metadata s1 !! (tgt, key) = Some a /\ a < length (heap s1) /\
    paramtypesOrEmpty env tgt key !! n = Some p /\ p <> VUndef /\
    array_get (deps (heap s1 !!! a)) n = Some c /\ c <> a /\
    heap s1 !! c = Some (set_id (jsOr i p) newMeta) /\
    (forall k, k <> n -> array_get (deps (heap s1 !!! a)) k = declaredAt s tgt key k).
Proof.
  intros Hl. rewrite register_eq.
  change (targetTypeOf (Args3 tgt key (DNum n))) with METHOD. simpl.
  rewrite registerParamArm_eq.
  destruct (fetchOrCreate tgt key s) as [s0 [a|e]] eqn:F; [|discriminate].
  destruct (fetchOrCreate_live _ _ _ _ _ Hl F) as (Hl0 & Ha & Hm0 & Hobj & Hr0 & L0).
  destruct (fetchOrCreate_site _ _ _ _ _ Hl F) as (Hdeps0 & _ & _).
  rewrite registerParam_eq.
  destruct (paramtypesOrEmpty env tgt key !! n) as [p|] eqn:Hp; [|discriminate].
  change (default VUndef (Some p)) with p.
  destruct (paramAccepted env p i) eqn:Hacc; [|discriminate].
  intros [= <-].
  pose proof (depsGrow_withChild i p n a s0) as (M & _ & _ & _ & L & _ & _).
  destruct (withChild_child i p n a s0 Ha) as [Hc Hcell].
  exists a, p, (length (heap s0)).
  split; [by rewrite M|]. split; [lia|]. split; [done|].
  split; [by intros ->|]. split; [done|]. split; [lia|]. split; [done|].
  clear Hc Hcell.
  intros k Hk. rewrite withChild_deps by done.
  rewrite array_get_set_other by done. by rewrite Hdeps0, declaredAt_siteDeps.
Qed.

(** A parameter declaration never writes the registry. *)
Lemma param_keeps_registry env i lc tgt key n s :
  registry (register env i lc (Args3 tgt key (DNum n)) s).1 = registry s.
Proof.
  rewrite register_eq.
  change (targetTypeOf (Args3 tgt key (DNum n))) with METHOD. simpl.
  rewrite registerParamArm_eq, fetchOrCreate_eq.
  destruct (isObject tgt); [|done].
  destruct (metadata s !! (tgt, key)) as [a|];
    rewrite registerParam_eq; by destruct (paramAccepted _ _ _).
Qed.

(** X1. A parameter declaration [register(id, lifeCycle)(target, key,
    index)] in a state the program can reach never writes the registry,
    however it completes. When it completes, the reflected parameter types
    have an entry [p] at the index, the site's descriptor has at the index a
    new child whose identifier is the explicit one if it is truthy and [p]
    otherwise, whose kind is [TYPE] and whose lifecycle is [SINGLETON]
    whatever lifecycle was passed (the source never reads that argument), and
    every other position is as it was. *)
Theorem parameter_declaration env i lc tgt key n s :
  Declared env s ->
  registry (register env i lc (Args3 tgt key (DNum n)) s).1 = registry s /\
  ((register env i lc (Args3 tgt key (DNum n)) s).2 = Normal tt ->
   exists a p c m,
     metadata (register env i lc (Args3 tgt key (DNum n)) s).1 !! (tgt, key) = Some a /\
     paramtypesOrEmpty env tgt key !! n = Some p /\
     array_get (deps (heap (register env i lc (Args3 tgt key (DNum n)) s).1 !!! a)) n = Some c /\
     heap (register env i lc (Args3 tgt key (DNum n)) s).1 !! c = Some m /\
     id m = (if truthy i then i else p) /\ type m = TYPE /\ lifeCycle m = SINGLETON /\
     forall k, k <> n ->
       array_get (deps (heap (register env i lc (Args3 tgt key (DNum n)) s).1 !!! a)) k
         = declaredAt s tgt key k).
Proof.
  intros Hd. split; [apply param_keeps_registry|].
  destruct (register env i lc (Args3 tgt key (DNum n)) s) as [s1 [[]|e]] eqn:E;
    simpl; [|discriminate]. intros _.
  destruct (param_declared _ _ _ _ _ _ _ _ (Declared_live _ _ Hd) E)
    as (a & p & c & Hm & _ & Hp & _ & Hc & _ & Hcell & Hoth).
  exists a, p, c, (set_id (jsOr i p) newMeta). by repeat split.
Qed.

(** X2. An explicit parameter annotation is kept by the declaration of its
    class or factory: after [register(id)(target, key, n)] and then a class
    or factory declaration at the same site have both completed, position
    [n] of the site's descriptor still holds the annotated child, and the
    identifier list the graph registrar will hand to the container has at
    [n] the explicit identifier (or the reflected type, when the identifier
    was not truthy). *)
Theorem annotation_survives_root env s i lc tgt key n j lc' args s1 s2 :
  Declared env s ->
  register env i lc (Args3 tgt key (DNum n)) s = (s1, Normal tt) ->
  isRoot args = true -> argTarget args = tgt -> argKey args = key ->
  register env j lc' args s1 = (s2, Normal tt) ->
  exists a c p,
    metadata s2 !! (tgt, key) = Some a /\
    paramtypesOrEmpty env tgt key !! n = Some p /\
    array_get (deps (heap s1 !!! a)) n = Some c /\
    array_get (deps (heap s2 !!! a)) n = Some c /\
    depIds (heap s2) (deps (heap s2 !!! a)) !! n = Some (Some (if truthy i then i else p)).
Proof.
  intros Hd E1 Hroot <- <- E2. pose proof (Declared_live _ _ Hd) as Hl.
  destruct (param_declared _ _ _ _ _ _ _ _ Hl E1)
    as (a & p & c & Hm & Ha & Hp & _ & Hc & Hne & Hcell & _).
  assert (Hl1 : live s1).
  { pose proof (register_live env i lc (Args3 (argTarget args) (argKey args) (DNum n)) s Hl) as H.
    by rewrite E1 in H. }
  destruct (root_children _ _ _ _ _ _ Hl1 Hroot E2)
    as (a' & m & Hm2 & Hh2 & _ & _ & _ & _ & Hkeep & _).
  destruct (root_declared_facts _ _ _ _ _ _ Hl1 Hroot E2)
    as (a'' & _ & _ & _ & Hm2' & _ & _ & _ & _ & _ & Hsame & _).
  destruct (Hsame a Hm) as [<- _].
  assert (a' = a) as -> by congruence.
  destruct (Hkeep n c) as [Hk Hcellk].
  { unfold declaredAt. by rewrite Hm. }
  exists a, c, p. rewrite (list_lookup_total_correct _ _ _ Hh2).
  repeat split; try done.
  erewrite depIds_lookup by exact Hk.
  by rewrite (list_lookup_total_correct _ _ _ (Hcellk Hne _ Hcell)).
Qed.

(** X3. A class or factory declaration that completes gives every position
    that had no annotation a child whose identifier is the reflected type of
    that position: the identifier list of the site's descriptor carries the
    reflected parameter types in positional order. *)
Theorem implicit_children_carry_reflected_types env s i lc args s1 :
  Declared env s ->
  isRoot args = true ->
  register env i lc args s = (s1, Normal tt) ->
  exists a,
    metadata s1 !! (argTarget args, argKey args) = Some a /\
    forall n p,
      paramtypesOrEmpty env (argTarget args) (argKey args) !! n = Some p ->
      declaredAt s (argTarget args) (argKey args) n = None ->
      depIds (heap s1) (deps (heap s1 !!! a)) !! n = Some (Some p).
Proof.
  intros Hd Hroot E. pose proof (Declared_live _ _ Hd) as Hl.
  destruct (root_children _ _ _ _ _ _ Hl Hroot E)
    as (a & m & Hm & Hh & _ & _ & _ & _ & _ & Hnew).
  exists a. split; [done|]. intros n p Hp Hnone.
  destruct (Hnew n p Hp Hnone) as (c & Hc & _ & Hcell).
  rewrite (list_lookup_total_correct _ _ _ Hh).
  erewrite depIds_lookup by exact Hc.
  by rewrite (list_lookup_total_correct _ _ _ Hcell).
Qed.

(** X4. A class declaration [register(id, lifeCycle)(target)] that
    completes leaves at its site a [TYPE] descriptor for [target] whose
    identifier is the explicit one if it is truthy and the class itself
    otherwise; the registry holds the descriptor under that identifier; and
    its lifecycle is the one passed if that is truthy, and otherwise the one
    the site had ([SINGLETON] when the site is new). *)
Theorem class_declaration_fields env s i lc tgt s1 :
  Declared env s ->
  register env i lc (Args1 tgt) s = (s1, Normal tt) ->
  exists a m,
    metadata s1 !! (tgt, VUndef) = Some a /\ heap s1 !! a = Some m /\
    id m = (if truthy i then i else tgt) /\ type m = TYPE /\ target m = tgt /\
    lifeCycle m = lcOr env lc (siteLifeCycle s tgt VUndef) /\
    registry s1 !! id m = Some a.
Proof.
  intros Hd E. pose proof (Declared_live _ _ Hd) as Hl.
  assert (Hroot : isRoot (Args1 tgt) = true) by reflexivity.
  destruct (root_children _ _ _ _ _ _ Hl Hroot E)
    as (a & m & Hm & Hh & Hid & Hty & Htg & Hlc & _).
  destruct (root_declared_facts _ _ _ _ _ _ Hl Hroot E)
    as (a' & _ & _ & _ & Hm' & _ & _ & _ & _ & Hreg & _ & Hobj).
  simpl in *. assert (a' = a) as -> by congruence.
  exists a, m. repeat split; try done.
  unfold registryKey in Hreg. rewrite (list_lookup_total_correct _ _ _ Hh) in Hreg.
  rewrite Hid in *. unfold ctorUpdate, jsOr in *. simpl in *.
  destruct (truthy i) eqn:Hi; [by rewrite Hi in Hreg|].
  destruct tgt; try discriminate. exact Hreg.
Qed.

(** X5. A property declaration on an object target, in a state the program
    can reach, always completes, with or without an identifier. It appends
    to the owner's [deps] one new child carrying the identifier given
    (possibly [undefined]) and the member key, with the default lifecycle,
    and writes the owner to the registry. When the member holds no value the
    child stays a [TYPE] placeholder and the registry gains no entry for it;
    when the member holds a value the child is an [INSTANCE] of that value
    and the registry holds it under its identifier, unless the owner's own
    registry key is that identifier, in which case the owner takes the
    entry. *)
Theorem property_declaration env i lc args s :
  Declared env s ->
  targetTypeOf args = PROPERTY ->
  isObject (argTarget args) = true ->
  let tgt := argTarget args in
  let key := argKey args in
  exists s1 a c m,
    register env i lc args s = (s1, Normal tt) /\
    metadata s1 !! (tgt, VUndef) = Some a /\
    deps (heap s1 !!! a) = siteDeps s tgt VUndef ++ [Some c] /\
    heap s1 !! c = Some m /\ c <> a /\
    id m = i /\ metaKey m = key /\ lifeCycle m = SINGLETON /\ deps m = [] /\
    registry s1 !! registryKey s1 a tgt = Some a /\
    (forall k, k <> registryKey s1 a tgt -> k <> i -> registry s1 !! k = registry s !! k) /\
    (getProp env tgt key = VUndef ->
       type m = TYPE /\ target m = VUndef /\
       (i <> registryKey s1 a tgt -> registry s1 !! i = registry s !! i)) /\
    (getProp env tgt key <> VUndef ->
       type m = INSTANCE /\ target m = getProp env tgt key /\
       (i <> registryKey s1 a tgt -> registry s1 !! i = Some c)).
Proof.
  intros Hd Hty Hobj tgt key. pose proof (Declared_live _ _ Hd) as Hl.
  rewrite register_eq, Hty, registerProperty_eq. fold tgt key.
  destruct (fetchOrCreate tgt VUndef s) as [s0 [a|e]] eqn:F.
  2:{ destruct (fetchOrCreate_throw_state _ _ _ _ _ F) as [_ H]. unfold tgt in H. congruence. }
  destruct (fetchOrCreate_live _ _ _ _ _ Hl F) as (Hl0 & Ha & Hm0 & _ & Hr0 & L0).
  destruct (fetchOrCreate_site _ _ _ _ _ Hl F) as (Hdeps0 & _ & _).
  set (c := length (heap s0)).
  assert (Hlen : forall f g (h : list ResolverMeta), length (alter f a (alter g c h)) = length h)
    by (intros; by rewrite !length_alter).
  unfold withProperty. fold c.
  destruct (decide (getProp env tgt key = VUndef)) as [Hv|Hv]; simpl.
  - eexists _, a, c, _. split; [reflexivity|]. simpl. split; [done|]. split.
    { rewrite list_lookup_total_alter_eq by (rewrite length_alter, length_app; simpl; lia).
      rewrite list_lookup_total_alter_ne by (unfold c; lia).
      rewrite lookup_total_app_l by done. simpl. by rewrite Hdeps0. }
    split.
    { rewrite list_lookup_alter_ne by (unfold c; lia). rewrite list_lookup_alter_eq.
      rewrite lookup_app_r by (unfold c; lia). unfold c. rewrite Nat.sub_diag. reflexivity. }
    split; [unfold c; lia|]. simpl.
    repeat split; try done.
    + by rewrite lookup_insert_eq.
    + intros k Hk _. rewrite lookup_insert_ne by done. by rewrite Hr0.
    + intros Hk. rewrite lookup_insert_ne by done. by rewrite Hr0.
  - eexists _, a, c, _. split; [reflexivity|]. simpl. split; [done|]. split.
    { rewrite list_lookup_total_alter_ne by (unfold c; lia).
      rewrite list_lookup_total_alter_eq by (rewrite length_alter, length_app; simpl; lia).
      rewrite list_lookup_total_alter_ne by (unfold c; lia).
      rewrite lookup_total_app_l by done. simpl. by rewrite Hdeps0. }
    split.
    { rewrite list_lookup_alter_eq. rewrite list_lookup_alter_ne by (unfold c; lia).
      rewrite list_lookup_alter_eq.
      rewrite lookup_app_r by (unfold c; lia). unfold c. rewrite Nat.sub_diag. reflexivity. }
    split; [unfold c; lia|]. simpl.
    repeat split; try done.
    + by rewrite lookup_insert_eq.
    + intros k Hk Hki. rewrite !lookup_insert_ne by done. by rewrite Hr0.
    + intros Hk. rewrite lookup_insert_ne by done. by rewrite lookup_insert_eq.
Qed.

(** ** What a traversal registers *)

Lemma elem_of_pushAll {A} (x : A) xs st : x ∈ pushAll xs st <-> x ∈ xs \/ x ∈ st.
Proof.
  unfold pushAll. rewrite elem_of_app, !list_elem_of_In, <- in_rev. tauto.
Qed.

(** One iteration that registers: the descriptor found for the popped
    reference goes into the container as [registration] says, its children
    and its property children go on the stack. *)
Lemma registerLoop_registers env h reg fuel r rest k log d v :
  reg !! id (h !!! r) = Some d ->
  getDep k (id (h !!! d)) = None ->
  registration env h reg d = Some v ->
  exists k1,
    registerLoop env h reg (S fuel) (Some r :: rest) (Some k) log =
      registerLoop env h reg fuel
        (pushAll (propertyChildren env h reg d) (pushAll (deps (h !!! d)) rest))
        (Some k1) (log ++ [id (h !!! d)]) /\
    getDep k1 (id (h !!! d)) = Some v /\
    (forall x, x <> id (h !!! d) -> getDep k1 x = getDep k x).
Proof.
  intros Hreg Hget Hv. simpl. rewrite Hreg, Hget.
  unfold registration, propertyChildren in *.
  destruct (type (h !!! d)); try discriminate.
  - destruct (getPrototype env (target (h !!! d))) as [proto|]; [|discriminate].
    injection Hv as <-.
    exists (registerFactory k (id (h !!! d)) (PConstruct d (reg !! proto))
              (depIds h (deps (h !!! d))) (lifeCycle (h !!! d))). split.
    + destruct (reg !! proto); reflexivity.
    + split; [by rewrite getDep_registerFactory, decide_True|].
      intros x Hx. by rewrite getDep_registerFactory, decide_False.
  - injection Hv as <-. eexists. split; [reflexivity|].
    split; [by rewrite getDep_registerFactory, decide_True|].
    intros x Hx. by rewrite getDep_registerFactory, decide_False.
  - injection Hv as <-. eexists. split; [reflexivity|].
    split; [by rewrite getDep_registerInstance, decide_True|].
    intros x Hx. by rewrite getDep_registerInstance, decide_False.
Qed.

(** An iteration that meets an unregistered descriptor without a
    [registration] throws. *)
Lemma registerLoop_refuses env h reg fuel r rest k log d :
  reg !! id (h !!! r) = Some d ->
  getDep k (id (h !!! d)) = None ->
  registration env h reg d = None ->
  exists e, rr_status (registerLoop env h reg (S fuel) (Some r :: rest) (Some k) log) = Threw e.
Proof.
  intros Hreg Hget Hv. simpl. rewrite Hreg, Hget.
  unfold registration in Hv.
  destruct (type (h !!! d)); try discriminate; [|by eexists].
  destruct (getPrototype env (target (h !!! d))); [discriminate|by eexists].
Qed.

(** A traversal that completes has settled every reference of its stack,
    and for every identifier it registered there is a descriptor carrying it
    whose registration is the one in the container and whose children and
    property children are settled. *)
Lemma registerLoop_complete env h reg fuel : forall stack k log,
  rr_status (registerLoop env h reg fuel stack (Some k) log) = Done ->
  exists k' new,
    rr_container (registerLoop env h reg fuel stack (Some k) log) = Some k' /\
    rr_log (registerLoop env h reg fuel stack (Some k) log) = log ++ new /\
    (forall o, o ∈ stack -> settledIn h reg k' o) /\
    (forall x, x ∈ new ->
       exists d, x = id (h !!! d) /\
         is_Some (registration env h reg d) /\
         getDep k' x = registration env h reg d /\
         (forall o, o ∈ deps (h !!! d) -> settledIn h reg k' o) /\
         (forall o, o ∈ propertyChildren env h reg d -> settledIn h reg k' o)).
Proof.
  induction fuel as [|fuel IH]; intros stack k log Hdone; [discriminate|].
  destruct stack as [|[r|] rest].
  - simpl. exists k, []. rewrite app_nil_r. repeat split; try done.
    + intros o Ho. by apply elem_of_nil in Ho.
    + intros x Hx. by apply elem_of_nil in Hx.
  - destruct (reg !! id (h !!! r)) as [d|] eqn:Hreg.
    + destruct (getDep k (id (h !!! d))) as [old|] eqn:Hget.
      * simpl in *. rewrite Hreg, Hget in *.
        destruct (IH rest k log Hdone) as (k' & new & Hc & Hlog & Hst & Hnew).
        exists k', new. repeat split; try done.
        intros o [->|Ho]%elem_of_cons; [|by apply Hst].
        intros a d' [= <-] Hd'. rewrite Hreg in Hd'. injection Hd' as <-.
        destruct (registerLoop_onceOnly env h reg fuel rest k log)
          as (k2 & _ & Hc2 & _ & _ & _ & Hkeep & _).
        rewrite Hc in Hc2. injection Hc2 as <-. rewrite (Hkeep _ _ Hget). eauto.
      * destruct (registration env h reg d) as [v|] eqn:Hv.
        2:{ destruct (registerLoop_refuses env h reg fuel r rest k log d Hreg Hget Hv) as [e He].
            congruence. }
        destruct (registerLoop_registers env h reg fuel r rest k log d v Hreg Hget Hv)
          as (k1 & Heq & Hk1 & _).
        rewrite Heq in *.
        destruct (IH _ k1 _ Hdone) as (k' & new & Hc & Hlog & Hst & Hnew).
        destruct (registerLoop_onceOnly env h reg fuel
                    (pushAll (propertyChildren env h reg d) (pushAll (deps (h !!! d)) rest))
                    k1 (log ++ [id (h !!! d)]))
          as (k2 & _ & Hc2 & _ & _ & _ & Hkeep & _).
        rewrite Hc in Hc2. injection Hc2 as <-.
        exists k', (id (h !!! d) :: new). split; [done|].
        split; [by rewrite Hlog, <- app_assoc|]. split.
        -- intros o [->|Ho]%elem_of_cons.
           ++ intros a d' [= <-] Hd'. rewrite Hreg in Hd'. injection Hd' as <-.
              rewrite (Hkeep _ _ Hk1). eauto.
           ++ apply Hst. apply elem_of_pushAll. right. apply elem_of_pushAll. by right.
        -- intros x [->|Hx]%elem_of_cons; [|by apply Hnew].
           exists d. split; [done|]. split; [by rewrite Hv|].
           split; [by rewrite Hv; apply Hkeep|]. split.
           ++ intros o Ho. apply Hst. apply elem_of_pushAll. right.
              apply elem_of_pushAll. by left.
           ++ intros o Ho. apply Hst. apply elem_of_pushAll. by left.
    + simpl in *. rewrite Hreg in *.
      destruct (IH rest k log Hdone) as (k' & new & Hc & Hlog & Hst & Hnew).
      exists k', new. repeat split; try done.
      intros o [->|Ho]%elem_of_cons; [|by apply Hst].
      intros a d' [= <-] Hd'. congruence.
  - simpl in *.
    destruct (IH rest k log Hdone) as (k' & new & Hc & Hlog & Hst & Hnew).
    exists k', new. repeat split; try done.
    intros o [->|Ho]%elem_of_cons; [|by apply Hst].
    intros a d' [=].
Qed.

(** X6. A traversal of the graph registrar that completes leaves the graph
    closed in the container: the root is settled, and every identifier the
    traversal registered belongs to a descriptor that is stored with the
    producer of its kind, the identifiers of its children and its lifecycle,
    and whose children and property children (those the registry holds for
    the target's prototype owner) are settled as well. *)
Theorem traversal_closes_the_graph env s root k :
  rr_status (registerWithContainer env s root (Some k)) = Done ->
  exists k',
    rr_container (registerWithContainer env s root (Some k)) = Some k' /\
    settledIn (heap s) (registry s) k' root /\
    forall x, x ∈ rr_log (registerWithContainer env s root (Some k)) ->
      exists d, x = id (heap s !!! d) /\
        is_Some (registration env (heap s) (registry s) d) /\
        getDep k' x = registration env (heap s) (registry s) d /\
        (forall o, o ∈ deps (heap s !!! d) -> settledIn (heap s) (registry s) k' o) /\
        (forall o, o ∈ propertyChildren env (heap s) (registry s) d ->
           settledIn (heap s) (registry s) k' o).
Proof.
  unfold registerWithContainer. intros Hdone.
  destruct (registerLoop_complete env (heap s) (registry s) _ _ _ _ Hdone)
    as (k' & new & Hc & Hlog & Hst & Hnew).
  exists k'. split; [done|]. split.
  - apply Hst. apply elem_of_cons. by left.
  - intros x Hx. rewrite Hlog in Hx. by apply Hnew.
Qed.

Lemma registerLoop_settled env h reg fuel o k log :
  settledIn h reg k o ->
  registerLoop env h reg (S (S fuel)) [o] (Some k) log = mkRegResult Done (Some k) log.
Proof.
  intros Hs. destruct o as [a|]; [|reflexivity].
  cbn [registerLoop]. destruct (reg !! id (h !!! a)) as [d|] eqn:Hreg; [|reflexivity].
  destruct (Hs a d eq_refl Hreg) as [old ->]. reflexivity.
Qed.

(** X7. Running the graph registrar again from the same root, over the
    container a completed traversal left, registers nothing and leaves that
    container as it is. *)
Theorem second_traversal_registers_nothing env s root k k' :
  rr_status (registerWithContainer env s root (Some k)) = Done ->
  rr_container (registerWithContainer env s root (Some k)) = Some k' ->
  registerWithContainer env s root (Some k') = mkRegResult Done (Some k') [].
Proof.
  intros Hdone Hk'.
  destruct (registerLoop_complete env (heap s) (registry s) _ _ _ _ Hdone)
    as (k2 & new & Hc & _ & Hst & _).
  unfold registerWithContainer in Hk'. rewrite Hc in Hk'. injection Hk' as ->.
  unfold registerWithContainer, fuelFor.
  change (length [root]) with 1. rewrite Nat.add_succ_l.
  apply registerLoop_settled. apply Hst. apply elem_of_cons. by left.
Qed.

(** ** Declared descriptors are registrable *)















(** ** Lookups in reachable states *)


Lemma with_container_same s : with_container (container s) s = s.
Proof. by destruct s. Qed.






(** X10. A lookup at a site that was never declared, or whose target is not
    an object, throws a [TypeError] during an open session and leaves the
    whole state as it was: unlike a lookup that returns, it does not end the
    session. *)
Theorem undeclared_site_lookup_throws env s k tgt key :
  container s = Some k ->
  isObject tgt = false \/ metadata s !! (tgt, key) = None ->
  exists msg, getInjectable env tgt key s = (s, Throw (TypeError msg)).
Proof.
  intros Hk H. unfold getInjectable, bind, getMetadata.
  destruct (isObject tgt) eqn:Hobj; [|by eauto].
  destruct H as [H|H]; [done|]. rewrite H.
  unfold registerWithContainer, fuelFor. rewrite Hk. cbn [length Nat.add registerLoop].
  simpl. rewrite <- Hk, with_container_same. eauto.
Qed.

(** ** Declarations and the session *)

Lemma fetchOrCreate_session tgt key s s1 r :
  fetchOrCreate tgt key s = (s1, r) ->
  container s1 = container s /\ debugLog s1 = debugLog s.
Proof.
  rewrite fetchOrCreate_eq. destruct (isObject tgt); [|by intros [= <- _]].
  by destruct (metadata s !! (tgt, key)); intros [= <- _].
Qed.

Lemma finalSet_session tgt s r :
  container (finalSet tgt (s, r)).1 = container s /\
  debugLog (finalSet tgt (s, r)).1 = debugLog s.
Proof. by destruct r as [[a|]|e]. Qed.

Lemma register_session env i lc args s :
  container (register env i lc args s).1 = container s /\
  debugLog (register env i lc args s).1 = debugLog s.
Proof.
  destruct (isRoot args) eqn:Hroot.
  - rewrite register_root_eq by done.
    destruct (fetchOrCreate _ _ s) as [s1 [a|e]] eqn:F;
      destruct (fetchOrCreate_session _ _ _ _ _ F) as [E1 E2]; [|done].
    destruct (finishRoot_grow env a (argTarget args) (argKey args)
                (rootInit (rootUpdate env i lc args) a s1)) as [(_ & _ & G1 & G2 & _) _].
    destruct (finishRoot _ _ _ _ _) as [s3 r]; simpl in G1, G2.
    destruct (finalSet_session (argTarget args) s3 r) as [-> ->]. by rewrite G1, G2.
  - rewrite register_eq. unfold isRoot in Hroot.
    destruct (targetTypeOf args); try discriminate.
    + rewrite registerProperty_eq.
      destruct (fetchOrCreate _ _ s) as [s1 [a|e]] eqn:F;
        destruct (fetchOrCreate_session _ _ _ _ _ F) as [E1 E2]; [|done].
      destruct (finalSet_session (argTarget args)
                  (withProperty env i (argTarget args) (argKey args) a s1) (Normal (Some a)))
        as [-> ->].
      unfold withProperty. by destruct (decide _).
    + destruct (argDescriptor args) as [|n|v acc]; try discriminate.
      * unfold registerMethod, bind.
        destruct (fetchOrCreate _ _ s) as [s1 [a|e]] eqn:F; simpl;
          by destruct (fetchOrCreate_session _ _ _ _ _ F).
      * rewrite registerParamArm_eq.
        destruct (fetchOrCreate _ _ s) as [s1 [a|e]] eqn:F;
          destruct (fetchOrCreate_session _ _ _ _ _ F) as [E1 E2]; [|done].
        rewrite registerParam_eq. by destruct (paramAccepted _ _ _).
    + done.
Qed.

(** X11. Declarations never touch the injection session: whatever
    [register] does, the current container and the debug log stay as they
    were. So a declaration error inside [inject] reaches the decorated call
    site at once, with nothing deferred or logged and the session still
    open. *)
Theorem declaration_failure_is_synchronous env resolve i lc args s :
  container (register env i lc args s).1 = container s /\
  debugLog (register env i lc args s).1 = debugLog s /\
  forall e, (register env i None args s).2 = Throw e ->
    exists s1, injectRun env resolve i args s = (Throw e, s1) /\
      container s1 = container s /\ debugLog s1 = debugLog s.
Proof.
  destruct (register_session env i lc args s) as [H1 H2].
  split; [done|]. split; [done|].
  intros e He. destruct (register_session env i None args s) as [G1 G2].
  unfold injectRun, injectSync, bind.
  destruct (register env i None args s) as [s1 r]; simpl in *. subst r. eauto.
Qed.

(** ** The members of a produced instance *)

Lemma elem_of_memberKeys h props key :
  key ∈ memberKeys h props <->
  exists n a, props !! n = Some (Some a) /\ metaKey (h !!! a) = key.
Proof.
  unfold memberKeys. rewrite list_elem_of_omap. split.
  - intros ([a|] & Hin & Hf); simplify_eq/=.
    apply list_elem_of_lookup_1 in Hin as [n Hn]. eauto.
  - intros (n & a & Hn & <-). exists (Some a). split; [|done].
    by eapply list_elem_of_lookup_2.
Qed.

Lemma memberKeys_inj h props : NoDup (memberKeys h props) ->
  forall n1 n2 a1 a2,
    props !! n1 = Some (Some a1) -> props !! n2 = Some (Some a2) ->
    metaKey (h !!! a1) = metaKey (h !!! a2) -> n1 = n2.
Proof.
  induction props as [|o props IH]; intros Hnd n1 n2 a1 a2 H1 H2 Hk; [done|].
  assert (NoDup (memberKeys h props)) as Hnd'.
  { destruct o; [by apply NoDup_cons in Hnd as [_ ?]|done]. }
  destruct n1 as [|n1], n2 as [|n2]; simpl in *; simplify_eq.
  - done.
  - apply NoDup_cons in Hnd as [Hnot _]. exfalso. apply Hnot.
    rewrite Hk. apply elem_of_memberKeys. eauto.
  - apply NoDup_cons in Hnd as [Hnot _]. exfalso. apply Hnot.
    rewrite <- Hk. apply elem_of_memberKeys. eauto.
  - f_equal. by eapply IH.
Qed.

(** With distinct member names, a fulfilled [Promise.all] leaves each
    settled child's value under its name and every other member as it
    was. *)
Lemma settle_members rt h c props :
  NoDup (memberKeys h props) ->
  forall order, NoDup order -> forall res trace out inst,
  settle rt h c props order res trace = (out, Normal inst) ->
  (forall n a, n ∈ order -> props !! n = Some (Some a) ->
     exists v, propCallback rt c (h !!! a) = Normal v /\
               inst !! metaKey (h !!! a) = Some v) /\
  (forall key, (forall n a, n ∈ order -> props !! n = Some (Some a) ->
                            metaKey (h !!! a) <> key) ->
     inst !! key = res !! key).
Proof.
  intros Hkeys. induction order as [|i order IH]; intros Hnd res trace out inst Hrun;
    simpl in Hrun.
  - injection Hrun as <- <-. split; [|done]. intros n a Hn. by apply elem_of_nil in Hn.
  - apply NoDup_cons in Hnd as [Hi Hnd].
    destruct (props !! i) as [[a|]|] eqn:Hpi.
    + destruct (propCallback rt c (h !!! a)) as [v|e] eqn:Hcb; [|discriminate].
      destruct (IH Hnd _ _ _ _ Hrun) as [Hin Hout]. split.
      * intros n b Hn Hb. apply elem_of_cons in Hn as [->|Hn]; [|exact (Hin n b Hn Hb)].
        rewrite Hpi in Hb. injection Hb as <-. exists v. split; [done|].
        rewrite Hout; [apply (lookup_insert_eq (M:=gmap value))|].
        intros n b Hn Hb Hk.
        assert (n = i) as -> by exact (memberKeys_inj h props Hkeys n i b a Hb Hpi Hk). done.
      * intros key Hkey. rewrite Hout.
        -- apply (lookup_insert_ne (M:=gmap value)). apply (Hkey i a); [by left|done].
        -- intros n b Hn Hb. apply (Hkey n b); [by right|done].
    + destruct (IH Hnd _ _ _ _ Hrun) as [Hin Hout]. split.
      * intros n b Hn Hb. apply elem_of_cons in Hn as [->|Hn]; [congruence|exact (Hin n b Hn Hb)].
      * intros key Hkey. apply Hout. intros n b Hn Hb. apply (Hkey n b); [by right|done].
    + destruct (IH Hnd _ _ _ _ Hrun) as [Hin Hout]. split.
      * intros n b Hn Hb. apply elem_of_cons in Hn as [->|Hn]; [congruence|exact (Hin n b Hn Hb)].
      * intros key Hkey. apply Hout. intros n b Hn Hb. apply (Hkey n b); [by right|done].
Qed.

Lemma settle_fulfilled rt h c props : forall order res trace,
  (forall n a, n ∈ order -> props !! n = Some (Some a) ->
     exists v, propCallback rt c (h !!! a) = Normal v) ->
  exists out inst, settle rt h c props order res trace = (out, Normal inst).
Proof.
  induction order as [|i order IH]; intros res trace Hall; simpl; [by eauto|].
  assert (forall n a, n ∈ order -> props !! n = Some (Some a) ->
            exists v, propCallback rt c (h !!! a) = Normal v) as Hall'.
  { intros n a Hn. apply Hall. by right. }
  destruct (props !! i) as [[a|]|] eqn:Hpi; [|by apply IH|by apply IH].
  destruct (Hall i a) as [v ->]; [by left|done|]. by apply IH.
Qed.

Lemma order_covers (props : list (option addr)) order n o :
  order ≡ₚ seq 0 (length props) -> props !! n = Some o -> n ∈ order.
Proof.
  intros Hperm Hn. rewrite Hperm. apply elem_of_seq. apply lookup_lt_Some in Hn. lia.
Qed.

(** X12. When the property children of a class have pairwise distinct
    member names, an instance its producer returns holds, under each
    child's name, the value the container resolved for that child, and every
    other member is as the constructor left it. *)
Theorem produced_instance_members rt h c dep pm args order inst :
  order ≡ₚ seq 0 (length (deps (h !!! pm))) ->
  NoDup (memberKeys h (deps (h !!! pm))) ->
  (typeProducer rt h c dep (Some pm) args order).2 = Normal inst ->
  exists res0,
    construct rt (target (h !!! dep)) args = Normal res0 /\
    (forall n a, deps (h !!! pm) !! n = Some (Some a) ->
       exists v, propCallback rt c (h !!! a) = Normal v /\
                 inst !! metaKey (h !!! a) = Some v) /\
    (forall key, key ∉ memberKeys h (deps (h !!! pm)) -> inst !! key = res0 !! key).
Proof.
  intros Hperm Hkeys. unfold typeProducer.
  destruct (construct rt (target (h !!! dep)) args) as [res0|e0]; [|discriminate].
  destruct (settle rt h c (deps (h !!! pm)) order res0 []) as [out r] eqn:Hrun.
  simpl. intros ->. exists res0. split; [done|].
  assert (NoDup order) as Hnd by (rewrite Hperm; apply NoDup_seq).
  destruct (settle_members rt h c _ Hkeys order Hnd _ _ _ _ Hrun) as [Hin Hout].
  split.
  - intros n a Hn. apply (Hin n a); [by eapply order_covers|done].
  - intros key Hkey. apply Hout. intros n a _ Hn Hk. apply Hkey.
    apply elem_of_memberKeys. eauto.
Qed.

(** X13. With pairwise distinct member names the produced instance does
    not depend on the order in which the property resolutions settle: when
    the producer returns an instance under one order, it returns the same
    instance under every other. *)
Theorem produced_instance_order_independent rt h c dep pm args order1 order2 inst :
  order1 ≡ₚ seq 0 (length (deps (h !!! pm))) ->
  order2 ≡ₚ seq 0 (length (deps (h !!! pm))) ->
  NoDup (memberKeys h (deps (h !!! pm))) ->
  (typeProducer rt h c dep (Some pm) args order1).2 = Normal inst ->
  (typeProducer rt h c dep (Some pm) args order2).2 = Normal inst.
Proof.
  intros Hp1 Hp2 Hkeys. unfold typeProducer.
  destruct (construct rt (target (h !!! dep)) args) as [res0|e0]; [|discriminate].
  destruct (settle rt h c (deps (h !!! pm)) order1 res0 []) as [out1 r1] eqn:Hrun1.
  simpl. intros ->.
  assert (NoDup order1) as Hnd1 by (rewrite Hp1; apply NoDup_seq).
  assert (NoDup order2) as Hnd2 by (rewrite Hp2; apply NoDup_seq).
  destruct (settle_members rt h c _ Hkeys order1 Hnd1 _ _ _ _ Hrun1) as [Hin1 Hout1].
  destruct (settle_fulfilled rt h c (deps (h !!! pm)) order2 res0 []) as (out2 & inst2 & Hrun2).
  { intros n a _ Hn. destruct (Hin1 n a) as (v & Hv & _); [by eapply order_covers|done|eauto]. }
  rewrite Hrun2. simpl. f_equal.
  destruct (settle_members rt h c _ Hkeys order2 Hnd2 _ _ _ _ Hrun2) as [Hin2 Hout2].
  apply map_eq. intros key.
  destruct (decide (key ∈ memberKeys h (deps (h !!! pm)))) as [Hk|Hk].
  - apply elem_of_memberKeys in Hk as (n & a & Hn & <-).
    destruct (Hin1 n a) as (v1 & Hv1 & E1); [by eapply order_covers|done|].
    destruct (Hin2 n a) as (v2 & Hv2 & E2); [by eapply order_covers|done|].
    rewrite Hv1 in Hv2. injection Hv2 as <-. exact (eq_trans E2 (eq_sym E1)).
  - transitivity (res0 !! key); [apply Hout2|symmetry; apply Hout1].
    all: intros n a _ Hn Hkey; apply Hk; apply elem_of_memberKeys; eauto.
Qed.

(** ** [inject] on a class, end to end *)


(** ** Declarations that fail *)

Lemma register_throw_registry env i lc args s s1 e :
  register env i lc args s = (s1, Throw e) -> registry s1 = registry s.
Proof.
  destruct (isRoot args) eqn:Hroot.
  { intros H. by destruct (root_thrown _ _ _ _ _ _ _ Hroot H). }
  rewrite register_eq. unfold isRoot in Hroot.
  destruct (targetTypeOf args); try discriminate.
  - rewrite registerProperty_eq, fetchOrCreate_eq.
    destruct (isObject _); [|by intros [= <- _]].
    by destruct (metadata s !! _).
  - destruct (argDescriptor args) as [|n|v acc]; try discriminate.
    + unfold registerMethod, bind. rewrite fetchOrCreate_eq.
      destruct (isObject _); [|by intros [= <- _]].
      by destruct (metadata s !! _); intros [= <- _].
    + rewrite registerParamArm_eq, fetchOrCreate_eq.
      destruct (isObject _); [|by intros [= <- _]].
      destruct (metadata s !! _) as [a|];
        rewrite registerParam_eq; destruct (paramAccepted _ _ _); simpl; try done;
        by intros [= <- _].
Qed.

(** X15. A declaration that throws never writes the registry. It is not
    undone either: when a class or factory declaration on an object target
    throws (a reflected parameter type was refused), the site's descriptor
    is stored for the site and already carries the identifier, kind and
    target of the failed declaration. *)
Theorem failed_declaration_is_not_registered env i lc args s s1 e :
  Declared env s ->
  register env i lc args s = (s1, Throw e) ->
  registry s1 = registry s /\
  (isRoot args = true -> isObject (argTarget args) = true ->
     exists a m,
       metadata s1 !! (argTarget args, argKey args) = Some a /\
       heap s1 !! a = Some m /\
       id m = id (rootUpdate env i lc args newMeta) /\
       type m = type (rootUpdate env i lc args newMeta) /\
       target m = target (rootUpdate env i lc args newMeta) /\
       lifeCycle m = lcOr env lc (siteLifeCycle s (argTarget args) (argKey args))).
Proof.
  intros Hd Hrun. pose proof (Declared_live _ _ Hd) as Hl.
  split; [by eapply register_throw_registry|].
  intros Hroot Hobj. revert Hrun. rewrite register_root_eq by done.
  destruct (fetchOrCreate _ _ s) as [s0 [a|e0]] eqn:F.
  2:{ destruct (fetchOrCreate_throw_state _ _ _ _ _ F). congruence. }
  destruct (fetchOrCreate_live _ _ _ _ _ Hl F) as (Hl0 & Ha & Hm0 & _ & _ & _).
  destruct (fetchOrCreate_site _ _ _ _ _ Hl F) as (_ & Hlc0 & _).
  destruct (finishRoot_grow env a (argTarget args) (argKey args)
              (rootInit (rootUpdate env i lc args) a s0)) as [G _].
  destruct (finishRoot _ _ _ _ _) as [s3 [r|e3]]; [by destruct r|].
  simpl. intros [= <- <-]. simpl in G.
  destruct G as (Hm & _ & _ & _ & L & _ & Hown).
  simpl in Hm, L, Hown. rewrite length_alter in L, Hown.
  destruct (Hown Ha) as (ds & Hcell & _).
  rewrite list_lookup_total_alter_eq in Hcell by done.
  destruct (rootUpdate_fields env i lc args (heap s0 !!! a)) as (F1 & F2 & F3 & F4).
  exists a, (heap s3 !!! a). split; [by rewrite Hm|]. split.
  { apply list_lookup_lookup_total_lt. lia. }
  rewrite Hcell. simpl. by rewrite F1, F2, F3, F4, Hlc0.
Qed.

(** ** The worked examples are reachable states *)



(** ** Instances *)

Lemma property_declaration_witness :
  exists s1 a c,
    register envBare (VStr "svc") None (Args2 pFoo (VStr "p")) initState = (s1, Normal tt) /\
    metadata s1 !! (pFoo, VUndef) = Some a /\
    deps (heap s1 !!! a) = [Some c].
Proof.
  destruct (property_declaration envBare (VStr "svc") None (Args2 pFoo (VStr "p")) initState
              (Declared_init _) eq_refl eq_refl) as (s1 & a & c & m & H1 & H2 & H3 & _).
  exists s1, a, c. split; [exact H1|]. split; [exact H2|exact H3].
Defined.

Lemma parameter_declaration_witness :
  registry (register envGap (VStr "b") None (Args3 cFoo VUndef (DNum 1)) initState).1
    = registry initState /\
  exists c m,
    heap (register envGap (VStr "b") None (Args3 cFoo VUndef (DNum 1)) initState).1 !! c
      = Some m /\
    id m = VStr "b" /\ type m = TYPE.
Proof.
  destruct (parameter_declaration envGap (VStr "b") None cFoo VUndef 1 initState
              (Declared_init _)) as [H1 H2].
  split; [exact H1|].
  destruct (H2 eq_refl) as (a & p & c & m & _ & _ & _ & Hc & Hid & Hty & _).
  exists c, m. split; [exact Hc|]. split; [exact Hid|exact Hty].
Defined.

Lemma annotation_survives_root_witness :
  exists a,
    metadata (register envGap VUndef None (Args1 cFoo)
                (register envGap (VStr "b") None (Args3 cFoo VUndef (DNum 1)) initState).1).1
      !! (cFoo, VUndef) = Some a /\
    depIds
      (heap (register envGap VUndef None (Args1 cFoo)
               (register envGap (VStr "b") None (Args3 cFoo VUndef (DNum 1)) initState).1).1)
      (deps (heap (register envGap VUndef None (Args1 cFoo)
               (register envGap (VStr "b") None (Args3 cFoo VUndef (DNum 1)) initState).1).1
             !!! a))
      !! 1 = Some (Some (VStr "b")).
Proof.
  destruct (annotation_survives_root envGap initState (VStr "b") None cFoo VUndef 1
              VUndef None (Args1 cFoo)
              (register envGap (VStr "b") None (Args3 cFoo VUndef (DNum 1)) initState).1
              (register envGap VUndef None (Args1 cFoo)
                 (register envGap (VStr "b") None (Args3 cFoo VUndef (DNum 1)) initState).1).1
              (Declared_init _))
    as (a & c & p & H1 & _ & _ & _ & H2);
    [vm_compute; reflexivity|reflexivity|reflexivity|reflexivity|vm_compute; reflexivity|].
  exists a. split; [exact H1|exact H2].
Defined.

Lemma implicit_children_carry_reflected_types_witness :
  exists a,
    metadata stFoo !! (cFoo, VUndef) = Some a /\
    depIds (heap stFoo) (deps (heap stFoo !!! a)) !! 0 = Some (Some cA) /\
    depIds (heap stFoo) (deps (heap stFoo !!! a)) !! 1 = Some (Some cB).
Proof.
  destruct (implicit_children_carry_reflected_types envFoo initState (VStr "foo") None
              (Args1 cFoo) stFoo (Declared_init _) eq_refl)
    as (a & H1 & H2); [vm_compute; reflexivity|].
  exists a. split; [exact H1|].
  split; [exact (H2 0 cA eq_refl eq_refl)|exact (H2 1 cB eq_refl eq_refl)].
Defined.

Lemma class_declaration_fields_witness :
  exists a m,
    metadata stFoo !! (cFoo, VUndef) = Some a /\ heap stFoo !! a = Some m /\
    id m = VStr "foo" /\ type m = TYPE /\ target m = cFoo /\
    registry stFoo !! id m = Some a.
Proof.
  destruct (class_declaration_fields envFoo initState (VStr "foo") None cFoo stFoo
              (Declared_init _))
    as (a & m & H1 & H2 & H3 & H4 & H5 & _ & H7); [vm_compute; reflexivity|].
  exists a, m. do 5 (split; [assumption|]). exact H7.
Defined.

Lemma traversal_closes_the_graph_witness :
  exists k',
    rr_container (registerWithContainer envDiamond stDiamond (Some 5)
                    (Some (newOpium None None))) = Some k' /\
    settledIn (heap stDiamond) (registry stDiamond) k' (Some 5).
Proof.
  destruct (traversal_closes_the_graph envDiamond stDiamond (Some 5) (newOpium None None))
    as (k' & H1 & H2 & _); [vm_compute; reflexivity|].
  exists k'. split; [exact H1|exact H2].
Defined.

Lemma second_traversal_registers_nothing_witness :
  registerWithContainer envDiamond stDiamond (Some 5) (Some kDiamond)
    = mkRegResult Done (Some kDiamond) [].
Proof.
  apply (second_traversal_registers_nothing envDiamond stDiamond (Some 5)
           (newOpium None None) kDiamond); vm_compute; reflexivity.
Defined.



Lemma undeclared_site_lookup_throws_witness :
  exists msg, getInjectable envGap cA VUndef stGap = (stGap, Throw (TypeError msg)).
Proof.
  apply (undeclared_site_lookup_throws envGap stGap (newOpium None None) cA VUndef);
    [reflexivity|right; reflexivity].
Defined.

Lemma produced_instance_members_witness :
  exists res0,
    construct rtName (target (heap stTwo !!! 3)) [] = Normal res0 /\
    (forall n a, deps (heap stTwo !!! 0) !! n = Some (Some a) ->
       exists v, propCallback rtName kTwo (heap stTwo !!! a) = Normal v /\
         (<[VStr "p" := VStr "svc"]> (<[VStr "q" := VStr "log"]> (∅ : Obj)))
           !! metaKey (heap stTwo !!! a) = Some v) /\
    (forall key, key ∉ memberKeys (heap stTwo) (deps (heap stTwo !!! 0)) ->
       (<[VStr "p" := VStr "svc"]> (<[VStr "q" := VStr "log"]> (∅ : Obj))) !! key
         = res0 !! key).
Proof.
  apply (produced_instance_members rtName (heap stTwo) kTwo 3 0 [] [1; 0]).
  - vm_compute. apply perm_swap.
  - apply (bool_decide_unpack _). vm_compute. exact I.
  - vm_compute. reflexivity.
Defined.

Lemma produced_instance_order_independent_witness :
  (typeProducer rtName (heap stTwo) kTwo 3 (Some 0) [] [1; 0]).2
    = Normal (<[VStr "p" := VStr "svc"]> (<[VStr "q" := VStr "log"]> (∅ : Obj))).
Proof.
  apply (produced_instance_order_independent rtName (heap stTwo) kTwo 3 0 [] [0; 1] [1; 0]).
  - reflexivity.
  - vm_compute. apply perm_swap.
  - apply (bool_decide_unpack _). vm_compute. exact I.
  - vm_compute. reflexivity.
Defined.


Lemma failed_declaration_is_not_registered_witness :
  (register envString (VStr "foo") None (Args1 cFoo) initState).2
    = Throw (MissingIdentifierError (VStr "String")) /\
  registry (register envString (VStr "foo") None (Args1 cFoo) initState).1
    = registry initState /\
  exists a m,
    metadata (register envString (VStr "foo") None (Args1 cFoo) initState).1
      !! (cFoo, VUndef) = Some a /\
    heap (register envString (VStr "foo") None (Args1 cFoo) initState).1 !! a = Some m /\
    id m = VStr "foo".
Proof.
  split; [vm_compute; reflexivity|].
  destruct (failed_declaration_is_not_registered envString (VStr "foo") None (Args1 cFoo)
              initState (register envString (VStr "foo") None (Args1 cFoo) initState).1
              (MissingIdentifierError (VStr "String")) (Declared_init _))
    as [H1 H2]; [vm_compute; reflexivity|].
  split; [exact H1|].
  destruct (H2 eq_refl eq_refl) as (a & m & Ha & Hm & Hid & _).
  exists a, m. split; [exact Ha|]. split; [exact Hm|exact Hid].
Defined.
